(** * GIFT-CIP: a shallow embedding of the network-assembly code

    The development follows [GIFT-CIP.py]: Python numbers and exceptions,
    the channel rounder [make_divisible], the module constructors
    ([ConvLayer], [InvertedResidual], [MobileViTBlock]), the patch
    unfolding and folding of [MobileViTBlock], the two stage builders and
    the top-level [GIFT_CIP] network.  Tensors carry a shape and their
    elements in row-major order; floating point values are idealised as
    rationals, and the statements about numbers are kept to the integers a
    binary64 value holds exactly. *)

From Stdlib Require Import String ZArith QArith Qround Qminmax Lqa List Bool Lia.
From Stdlib Require Import SpecFloat.
Import ListNotations.

Local Open Scope Z_scope.

(** ** Python exceptions and fallible computations *)

Inductive exn : Type :=
| AssertionError
| ValueError
| ZeroDivisionError
| KeyError
| TypeError
| RuntimeError
| OverflowError.

Inductive result (A : Type) : Type :=
| Ok (a : A)
| Err (e : exn).

Arguments Ok {A} a.
Arguments Err {A} e.

Definition bind {A B : Type} (m : result A) (k : A -> result B) : result B :=
  match m with
  | Ok a => k a
  | Err e => Err e
  end.

Notation "x <- m ;; k" := (bind m (fun x => k))
  (at level 61, m at next level, right associativity).
Notation "' p <- m ;; k" := (bind m (fun x => match x with p => k end))
  (at level 61, p pattern, m at next level, right associativity).

Definition py_assert (b : bool) : result unit :=
  if b then Ok tt else Err AssertionError.

Definition is_ok {A : Type} (m : result A) : bool :=
  match m with Ok _ => true | Err _ => false end.

(** ** Python numbers: [int] and [float]

    A [float] is idealised as the rational it stands for; rounding and
    overflow are not modelled here. *)

Module PyNum.

Inductive num : Type :=
| PyInt (z : Z)
| PyFloat (q : Q).

Definition to_Q (n : num) : Q :=
  match n with
  | PyInt z => inject_Z z
  | PyFloat q => q
  end.

Definition Qltb (a b : Q) : bool := negb (Qle_bool b a).

Definition Qeqb (a b : Q) : bool := Qle_bool a b && Qle_bool b a.

(** [a < b] and [a != b] on mixed numbers compare the values. *)
Definition ltb (a b : num) : bool := Qltb (to_Q a) (to_Q b).

Definition neb (a b : num) : bool := negb (Qeqb (to_Q a) (to_Q b)).

(** [int(x)] truncates towards zero. *)
Definition trunc (q : Q) : Z :=
  if Qle_bool 0 q then Qfloor q else Qceiling q.

Definition py_int (n : num) : Z :=
  match n with
  | PyInt z => z
  | PyFloat q => trunc q
  end.

(** [round(x)] on a float rounds half to even; on an [int] it is the
    identity. *)
Definition round_half_even (q : Q) : Z :=
  let f := Qfloor q in
  let r := (q - inject_Z f)%Q in
  if Qltb r (1 # 2) then f
  else if Qltb (1 # 2) r then f + 1
  else if Z.even f then f else f + 1.

Definition py_round (n : num) : num :=
  match n with
  | PyInt z => PyInt z
  | PyFloat q => PyInt (round_half_even q)
  end.

(** [a * b] and [a + b]: an [int] only when both operands are. *)
Definition mul (a b : num) : num :=
  match a, b with
  | PyInt x, PyInt y => PyInt (x * y)
  | _, _ => PyFloat (to_Q a * to_Q b)
  end.

Definition add (a b : num) : num :=
  match a, b with
  | PyInt x, PyInt y => PyInt (x + y)
  | _, _ => PyFloat (to_Q a + to_Q b)
  end.

(** [max(a, b)] keeps its first argument unless the second is larger. *)
Definition max (a b : num) : num := if ltb a b then b else a.


End PyNum.

Import PyNum.

(** ** [make_divisible]

    The arithmetic is exact here.  Python computes [v + divisor / 2] and
    [0.9 * v] in binary64: for an integer [v] and a divisor up to 2^48 the
    sum is a multiple of one half below 2^52 and so exact, and the rounded
    product compares with an integer as [9 * v / 10] does; on fractional
    values and on larger integers the rounding can change the outcome. *)

Definition make_divisible (v : num) (divisor : Z) (min_value : option num)
  : result num :=
  let min_value :=
    match min_value with
    | None => PyInt divisor
    | Some m => m
    end in
  if divisor =? 0 then Err ZeroDivisionError
  else
    let half := (inject_Z divisor / 2)%Q in
    let new_v := PyNum.max min_value
                   (PyInt (trunc (to_Q v + half) / divisor * divisor)) in
    if ltb new_v (PyFloat ((9 # 10) * to_Q v))
    then Ok (add new_v (PyInt divisor))
    else Ok new_v.

(** The rounder as the specification words it, over the rationals. *)
Definition make_divisible_spec (v : Q) (d : Z) (minimum : Q) : Q :=
  let candidate :=
    Qmax minimum (inject_Z (Qfloor ((v + inject_Z d / 2) / inject_Z d) * d)) in
  if Qltb candidate ((9 # 10) * v)
  then (candidate + inject_Z d)%Q
  else candidate.

(** *** [make_divisible] on a binary64 value

    Python's [float] is the IEEE 754 binary64 format, whose operations
    round to the nearest value, ties to even. *)

Module Binary64.

Definition prec : Z := 53.
Definition emax : Z := 1024.

Definition add : spec_float -> spec_float -> spec_float := SFadd prec emax.
Definition mul : spec_float -> spec_float -> spec_float := SFmul prec emax.
Definition div : spec_float -> spec_float -> spec_float := SFdiv prec emax.

(** [float(z)] *)
Definition of_int (z : Z) : spec_float := binary_normalize prec emax z 0 false.

(** The value of a finite number. *)
Definition value (x : spec_float) : option Q :=
  match x with
  | S754_zero _ => Some 0%Q
  | S754_finite s m e =>
      let q := (inject_Z (Z.pos m) * 2 ^ e)%Q in
      Some (if s then (- q)%Q else q)
  | S754_infinity _ | S754_nan => None
  end.

(** [int(x)] *)
Definition to_int (x : spec_float) : result Z :=
  match x with
  | S754_infinity _ => Err OverflowError
  | S754_nan => Err ValueError
  | _ => match value x with
         | Some q => Ok (trunc q)
         | None => Err ValueError
         end
  end.

(** [n < x] for an [int] and a [float] compares the values. *)
Definition int_ltb (n : Z) (x : spec_float) : bool :=
  match x with
  | S754_infinity s => negb s
  | S754_nan => false
  | _ => match value x with
         | Some q => Qltb (inject_Z n) q
         | None => false
         end
  end.

(** The literal [0.9]. *)
Definition nine_tenths : spec_float :=
  S754_finite false 8106479329266893 (-53).

End Binary64.

(** The function on a [float] argument with the default minimum. *)
Definition make_divisible_binary64 (v : spec_float) (divisor : Z)
  : result Z :=
  let min_value := divisor in
  i <- Binary64.to_int
         (Binary64.add v
            (Binary64.div (Binary64.of_int divisor) (Binary64.of_int 2))) ;;
  if divisor =? 0 then Err ZeroDivisionError
  else
    let new_v := Z.max min_value (i / divisor * divisor) in
    if Binary64.int_ltb new_v (Binary64.mul Binary64.nine_tenths v)
    then Ok (new_v + divisor)
    else Ok new_v.

(** The binary64 value nearest to 8.88888888888889. *)
Definition eight_and_eight_ninths : spec_float :=
  S754_finite false 5003999585967218 (-49).

(** Whether the exact computation and the binary64 computation return the
    same integer for the integer [v] and the divisor [d]. *)
Definition same_in_binary64 (d v : Z) : bool :=
  match make_divisible_binary64 (Binary64.of_int v) d,
        make_divisible (PyInt v) d None with
  | Ok a, Ok (PyInt b) => a =? b
  | _, _ => false
  end.

(** ** Tensors: a shape and the elements in row-major order *)

Definition numel (s : list Z) : Z := fold_right Z.mul 1 s.

Record Tensor : Type := mkTensor { shape : list Z; data : list Q }.

(** A tensor is well formed when it holds one element per index. *)
Definition wf_tensor (t : Tensor) : Prop :=
  Forall (fun d => 0 <= d) (shape t) /\
  length (data t) = Z.to_nat (numel (shape t)).

(** The sizes of a [reshape]/[view] request: at most one [-1], which is
    inferred from the number of elements; the engine refuses an inference
    on an empty tensor and a request of another size. *)
Definition resolve_dims (n : Z) (dims : list Z) : result (list Z) :=
  if existsb (fun d => d <? -1) dims then Err RuntimeError
  else
    match filter (fun d => d =? -1) dims with
    | [] => if numel dims =? n then Ok dims else Err RuntimeError
    | [_] =>
        let known := numel (filter (fun d => negb (d =? -1)) dims) in
        if known =? 0 then Err RuntimeError
        else if n mod known =? 0
             then Ok (map (fun d => if d =? -1 then n / known else d) dims)
             else Err RuntimeError
    | _ => Err RuntimeError
    end.

(** Row-major offsets and multi-indices. *)
Fixpoint unravel (s : list Z) (i : Z) : list Z :=
  match s with
  | [] => []
  | _ :: ds => (i / numel ds) :: unravel ds (i mod numel ds)
  end.

Fixpoint ravel (s idx : list Z) : Z :=
  match s, idx with
  | _ :: ds, i :: idx' => i * numel ds + ravel ds idx'
  | _, _ => 0
  end.

(** Exchange of the entries at positions [a] and [b]. *)
Definition swap_pos (a b k : nat) : nat :=
  if Nat.eqb k a then b else if Nat.eqb k b then a else k.

Definition swap (a b : nat) (l : list Z) : list Z :=
  map (fun k => nth (swap_pos a b k) l 0) (seq 0 (length l)).

Definition offsets (n : Z) : list Z := map Z.of_nat (seq 0 (Z.to_nat n)).

Definition tensor_reshape (t : Tensor) (dims : list Z) : result Tensor :=
  dims' <- resolve_dims (numel (shape t)) dims ;;
  Ok (mkTensor dims' (data t)).

(** [x.transpose(a, b)]: element [idx] of the result is the element of
    [x] at [idx] with its entries [a] and [b] exchanged. *)
Definition tensor_transpose (t : Tensor) (a b : nat) : result Tensor :=
  if (a <? length (shape t))%nat && (b <? length (shape t))%nat then
    let s' := swap a b (shape t) in
    Ok (mkTensor s'
          (map (fun i =>
                  nth (Z.to_nat (ravel (shape t) (swap a b (unravel s' i))))
                      (data t) 0%Q)
               (offsets (numel s'))))
  else Err RuntimeError.

(** Bilinear resampling of the two last axes without corner alignment,
    the engine's [F.interpolate(mode="bilinear", align_corners=False)]:
    the source coordinate of an output position and its weight. *)
Definition source_index (in_size out_size dst : Z) : Z * Z * Q :=
  let scale := (inject_Z in_size / inject_Z out_size)%Q in
  let real0 := (scale * (inject_Z dst + (1 # 2)) - (1 # 2))%Q in
  let real := if Qltb real0 0 then 0%Q else real0 in
  let i0 := Qfloor real in
  let i1 := if i0 <? in_size - 1 then i0 + 1 else i0 in
  (i0, i1, Qmin (Qmax (real - inject_Z i0) 0) 1).

Definition tensor_get (t : Tensor) (idx : list Z) : Q :=
  nth (Z.to_nat (ravel (shape t) idx)) (data t) 0%Q.

Definition bilinear_at (t : Tensor) (size : Z * Z) (idx : list Z) : Q :=
  match shape t, idx with
  | [_; _; h; w], [n; c; y; x] =>
      let '(y0, y1, ly) := source_index h (fst size) y in
      let '(x0, x1, lx) := source_index w (snd size) x in
      ((1 - ly) * ((1 - lx) * tensor_get t [n; c; y0; x0]
                   + lx * tensor_get t [n; c; y0; x1])
       + ly * ((1 - lx) * tensor_get t [n; c; y1; x0]
               + lx * tensor_get t [n; c; y1; x1]))%Q
  | _, _ => 0%Q
  end.

Definition tensor_interpolate (t : Tensor) (size : Z * Z) : result Tensor :=
  match shape t with
  | [b; c; h; w] =>
      if (0 <? h) && (0 <? w) && (0 <? fst size) && (0 <? snd size) then
        let s' := [b; c; fst size; snd size] in
        Ok (mkTensor s'
              (map (fun i => bilinear_at t size (unravel s' i))
                   (offsets (numel s'))))
      else Err RuntimeError
  | _ => Err RuntimeError
  end.

(** ** The tensor engine as an interface

    [unfolding] and [folding] only rearrange a tensor; they are written once
    against the layout operations and run on tensors with their elements
    and on bare shapes alike. *)

Class TensorOps (T : Type) : Type := {
  t_shape : T -> list Z;
  t_reshape : T -> list Z -> result T;
  t_transpose : T -> nat -> nat -> result T;
  t_interpolate : T -> Z * Z -> result T
}.

#[export] Instance TensorOps_Tensor : TensorOps Tensor := {
  t_shape := shape;
  t_reshape := tensor_reshape;
  t_transpose := tensor_transpose;
  t_interpolate := tensor_interpolate
}.

(** A tensor known by its shape only. *)
Definition Shape : Type := list Z.

Definition shape_reshape (s : Shape) (dims : list Z) : result Shape :=
  resolve_dims (numel s) dims.

Definition shape_transpose (s : Shape) (a b : nat) : result Shape :=
  if (a <? length s)%nat && (b <? length s)%nat
  then Ok (swap a b s) else Err RuntimeError.

Definition shape_interpolate (s : Shape) (size : Z * Z) : result Shape :=
  match s with
  | [b; c; h; w] =>
      if (0 <? h) && (0 <? w) && (0 <? fst size) && (0 <? snd size)
      then Ok [b; c; fst size; snd size] else Err RuntimeError
  | _ => Err RuntimeError
  end.

#[export] Instance TensorOps_Shape : TensorOps Shape := {
  t_shape := fun s => s;
  t_reshape := shape_reshape;
  t_transpose := shape_transpose;
  t_interpolate := shape_interpolate
}.

(** ** Layers of the engine and the external encoder *)

Inductive prim : Type :=
| Conv2d (in_channels out_channels : Z) (kernel_size stride padding : Z * Z)
         (groups : Z) (bias : bool)
| BatchNorm2d (num_features : Z)
| SiLU
| LayerNorm (normalized_shape : Z)
| AdaptiveAvgPool2d (output_size : Z)
| Flatten
| Dropout (p : num)
| Linear (in_features out_features : Z).

(** The arguments [TransformerEncoder] is constructed with. *)
Record TransformerEncoder : Type := mkTransformerEncoder {
  embed_dim : Z;
  ffn_latent_dim : option Z;
  te_num_heads : Z;
  te_attn_dropout : num;
  te_dropout : num;
  te_ffn_dropout : num
}.

Class Engine (T : Type) : Type := {
  engine_ops :: TensorOps T;
  run_prim : prim -> T -> result T;
  t_add : T -> T -> result T;
  t_scale : Q -> T -> T;
  t_cat : list T -> nat -> result T;
  run_transformer : TransformerEncoder -> T -> result T
}.

(** [nn.Sequential]: the named sub-modules in the order they were added. *)
Definition Sequential (M : Type) : Type := list (string * M).

Fixpoint sequential {M T : Type} (run : M -> T -> result T)
  (layers : Sequential M) (x : T) : result T :=
  match layers with
  | [] => Ok x
  | (_, m) :: rest => y <- run m x ;; sequential run rest y
  end.

(** *** What the layers do to a shape

    The layers are described by the arguments they are built with and are
    applied in the mode they are built in, the training mode.  A
    convolution takes a batch of images or one image without the batch
    axis; a layer with a kernel, stride or padding the engine has no
    convolution for fails when it is applied.  Batch normalisation wants
    more than one value per channel. *)

Definition conv_out_size (size kernel stride padding : Z) : Z :=
  (size + 2 * padding - kernel) / stride + 1.

Definition prim_shape (m : prim) (s : Shape) : result Shape :=
  match m with
  | Conv2d cin cout k st pad _ _ =>
      match s with
      | [b; c; h; w] =>
          let h' := conv_out_size h (fst k) (fst st) (fst pad) in
          let w' := conv_out_size w (snd k) (snd st) (snd pad) in
          if (c =? cin) && (0 <? fst k) && (0 <? snd k)
             && (0 <? fst st) && (0 <? snd st)
             && (0 <=? fst pad) && (0 <=? snd pad)
             && (0 <? h') && (0 <? w')
          then Ok [b; cout; h'; w'] else Err RuntimeError
      | [c; h; w] =>
          let h' := conv_out_size h (fst k) (fst st) (fst pad) in
          let w' := conv_out_size w (snd k) (snd st) (snd pad) in
          if (c =? cin) && (0 <? fst k) && (0 <? snd k)
             && (0 <? fst st) && (0 <? snd st)
             && (0 <=? fst pad) && (0 <=? snd pad)
             && (0 <? h') && (0 <? w')
          then Ok [cout; h'; w'] else Err RuntimeError
      | _ => Err RuntimeError
      end
  | BatchNorm2d nf =>
      match s with
      | [b; c; h; w] =>
          if b * h * w =? 1 then Err ValueError
          else if c =? nf then Ok s else Err RuntimeError
      | _ => Err ValueError
      end
  | SiLU => Ok s
  | LayerNorm d =>
      match rev s with
      | c :: _ => if c =? d then Ok s else Err RuntimeError
      | [] => Err RuntimeError
      end
  | AdaptiveAvgPool2d o =>
      match s with
      | [b; c; h; w] =>
          if (0 <? h) && (0 <? w) then Ok [b; c; o; o] else Err RuntimeError
      | _ => Err RuntimeError
      end
  | Flatten =>
      match s with
      | b :: rest => Ok [b; numel rest]
      | [] => Ok [1]
      end
  | Dropout _ => Ok s
  | Linear fin fout =>
      match rev s with
      | c :: front =>
          if c =? fin then Ok (rev front ++ [fout]) else Err RuntimeError
      | [] => Err RuntimeError
      end
  end.

Fixpoint shape_eqb (a b : Shape) : bool :=
  match a, b with
  | [], [] => true
  | x :: a', y :: b' => (x =? y) && shape_eqb a' b'
  | _, _ => false
  end.

(** Element-wise addition of two tensors of one shape, the only addition
    the network performs; broadcasting is left out. *)
Definition shape_add (a b : Shape) : result Shape :=
  if shape_eqb a b then Ok a else Err RuntimeError.

(** [torch.cat]: the tensors agree on every axis but [dim], whose sizes
    add up. *)
Definition set_nth (n : nat) (v : Z) (l : list Z) : list Z :=
  firstn n l ++ v :: skipn (S n) l.

Fixpoint shape_cat_onto (acc : Shape) (rest : list Shape) (dim : nat)
  : result Shape :=
  match rest with
  | [] => Ok acc
  | s :: rest' =>
      if (dim <? length acc)%nat
         && shape_eqb (set_nth dim 0 acc) (set_nth dim 0 s)
      then shape_cat_onto (set_nth dim (nth dim acc 0 + nth dim s 0) acc)
                          rest' dim
      else Err RuntimeError
  end.

Definition shape_cat (l : list Shape) (dim : nat) : result Shape :=
  match l with
  | [] => Err RuntimeError
  | s :: rest => shape_cat_onto s rest dim
  end.

(** Modelled from the spec: the forward operation of the external
    [TransformerEncoder] (module [transformer], not part of the sources),
    which maps (B, N, C) to (B, N, C), C being its embedding dimension. *)
Definition transformer_shape (m : TransformerEncoder) (s : Shape)
  : result Shape :=
  match s with
  | [_; _; c] => if c =? embed_dim m then Ok s else Err RuntimeError
  | _ => Err RuntimeError
  end.

#[export] Instance Engine_Shape : Engine Shape := {
  engine_ops := TensorOps_Shape;
  run_prim := prim_shape;
  t_add := shape_add;
  t_scale := fun _ s => s;
  t_cat := shape_cat;
  run_transformer := transformer_shape
}.

(** ** [ConvLayer] *)

(** A kernel size or stride given as one [int] or as a pair. *)
Inductive size_arg : Type :=
| SizeInt (k : Z)
| SizePair (k : Z * Z).

Definition as_pair (a : size_arg) : Z * Z :=
  match a with
  | SizeInt k => (k, k)
  | SizePair p => p
  end.

(** *** What the engine checks when a layer is built

    [nn.Conv2d] wants a positive number of groups that divides both channel
    counts, and allocates a weight of [out_channels] by
    [in_channels // groups] by the kernel; [nn.BatchNorm2d], [nn.LayerNorm]
    and [nn.Linear] allocate their parameters likewise, and no tensor has a
    negative size; [nn.Dropout] wants a probability.  Memory is taken to
    suffice for what is allocated. *)
Definition prim_new (m : prim) : result prim :=
  match m with
  | Conv2d cin cout k _ _ g _ =>
      if g <=? 0 then Err ValueError
      else if negb (cin mod g =? 0) then Err ValueError
      else if negb (cout mod g =? 0) then Err ValueError
      else if (cout <? 0) || (cin / g <? 0) || (fst k <? 0) || (snd k <? 0)
           then Err RuntimeError
           else Ok m
  | BatchNorm2d nf => if nf <? 0 then Err RuntimeError else Ok m
  | LayerNorm d => if d <? 0 then Err RuntimeError else Ok m
  | Linear fin fout =>
      if (fin <? 0) || (fout <? 0) then Err RuntimeError else Ok m
  | Dropout p =>
      if ltb p (PyInt 0) || ltb (PyInt 1) p then Err ValueError else Ok m
  | SiLU | AdaptiveAvgPool2d _ | Flatten => Ok m
  end.


Fixpoint build_layers (layers : Sequential prim) : result unit :=
  match layers with
  | [] => Ok tt
  | (_, m) :: rest => _ <- prim_new m ;; build_layers rest
  end.

Record ConvLayer : Type := mkConvLayer { block : Sequential prim }.

(** [ConvLayer.__init__] in two steps: [ConvLayer_init] is the block the
    constructor asks the engine for, [ConvLayer_new] the call
    [ConvLayer(...)], which fails when the engine refuses one of the
    layers. *)
Definition ConvLayer_init (in_channels out_channels : Z)
  (kernel_size stride : size_arg) (groups : Z)
  (bias use_norm use_act : bool) : ConvLayer :=
  let kernel_size := as_pair kernel_size in
  let stride := as_pair stride in
  let padding :=
    (trunc (inject_Z (fst kernel_size - 1) / 2),
     trunc (inject_Z (snd kernel_size - 1) / 2)) in
  let block :=
    [("conv"%string,
      Conv2d in_channels out_channels kernel_size stride padding groups bias)]
  in
  let block :=
    if use_norm then block ++ [("norm"%string, BatchNorm2d out_channels)]
    else block in
  let block :=
    if use_act then block ++ [("act"%string, SiLU)] else block in
  mkConvLayer block.

Definition ConvLayer_new (in_channels out_channels : Z)
  (kernel_size stride : size_arg) (groups : Z)
  (bias use_norm use_act : bool) : result ConvLayer :=
  let self :=
    ConvLayer_init in_channels out_channels kernel_size stride groups
                   bias use_norm use_act in
  _ <- build_layers (block self) ;;
  Ok self.

Definition ConvLayer_forward {T : Type} `{Engine T} (self : ConvLayer) (x : T)
  : result T :=
  sequential run_prim (block self) x.

(** ** [InvertedResidual] *)

Record InvertedResidual : Type := mkInvertedResidual {
  ir_block : Sequential ConvLayer;
  ir_in_channels : Z;
  ir_out_channels : Z;
  ir_exp : num;
  ir_stride : Z;
  use_res_connect : bool
}.

(** [hidden_dim = make_divisible(int(round(in_channels * expand_ratio)), 8)] *)
Definition hidden_dim_of (in_channels : Z) (expand_ratio : num) : result num :=
  make_divisible
    (PyInt (py_int (py_round (PyNum.mul (PyInt in_channels) expand_ratio))))
    8 None.

(** A channel count handed to a layer constructor has to be an [int]. *)
Definition as_channels (n : num) : result Z :=
  match n with
  | PyInt z => Ok z
  | PyFloat _ => Err TypeError
  end.

Definition require_int (o : option Z) : result Z :=
  match o with
  | Some z => Ok z
  | None => Err TypeError
  end.

(** [out_channels] is [None] when the configuration the unit is built from
    has no such key; the projection layer then cannot be built. *)
Definition InvertedResidual_init (in_channels : Z) (out_channels : option Z)
  (stride : Z) (expand_ratio : num) (skip_connection : bool)
  : result InvertedResidual :=
  _ <- py_assert ((stride =? 1) || (stride =? 2)) ;;
  hd <- hidden_dim_of in_channels expand_ratio ;;
  hidden_dim <- as_channels hd ;;
  block <-
    (if neb expand_ratio (PyInt 1)
     then
       exp_1x1 <- ConvLayer_new in_channels hidden_dim (SizeInt 1) (SizeInt 1)
                    1 false true true ;;
       Ok [("exp_1x1"%string, exp_1x1)]
     else Ok []) ;;
  conv_3x3 <- ConvLayer_new hidden_dim hidden_dim (SizeInt 3) (SizeInt stride)
                hidden_dim false true true ;;
  let block := block ++ [("conv_3x3"%string, conv_3x3)] in
  out <- require_int out_channels ;;
  red_1x1 <- ConvLayer_new hidden_dim out (SizeInt 1) (SizeInt 1) 1
               false true false ;;
  let block := block ++ [("red_1x1"%string, red_1x1)] in
  Ok (mkInvertedResidual block in_channels out expand_ratio stride
        ((stride =? 1) && (in_channels =? out) && skip_connection)).

Definition InvertedResidual_forward {T : Type} `{Engine T}
  (self : InvertedResidual) (x : T) : result T :=
  if use_res_connect self then
    y <- sequential ConvLayer_forward (ir_block self) x ;;
    t_add x y
  else
    sequential ConvLayer_forward (ir_block self) x.

(** ** [MobileViTBlock] *)

Inductive global_layer : Type :=
| GEncoder (m : TransformerEncoder)
| GNorm (m : prim).

Record MobileViTBlock : Type := mkMobileViTBlock {
  local_rep : Sequential ConvLayer;
  global_rep : list global_layer;
  conv_proj : ConvLayer;
  fusion : ConvLayer;
  patch_h : Z;
  patch_w : Z;
  patch_area : Z;
  cnn_in_dim : Z;
  cnn_out_dim : Z;
  n_heads : Z;
  ffn_dim : option Z;
  dropout : num;
  attn_dropout : num;
  ffn_dropout : num;
  n_blocks : Z;
  conv_ksize : Z
}.

(** [a % b] and [a // b] raise on a zero divisor. *)
Definition py_mod (a b : Z) : result Z :=
  if b =? 0 then Err ZeroDivisionError else Ok (a mod b).

Definition py_floordiv (a b : Z) : result Z :=
  if b =? 0 then Err ZeroDivisionError else Ok (a / b).

(** *** A constructor and what it has built

    A constructor that fails part-way has by then made the engine build,
    and allocate the parameters of, the layers before the failure.
    [Built] keeps the modules built so far next to the outcome. *)
Inductive module : Type :=
| EngineLayer (m : prim)
| Encoder (m : TransformerEncoder).

Definition Built (A : Type) : Type := (list module * result A)%type.

Definition built_bind {A B : Type} (m : Built A) (k : A -> Built B)
  : Built B :=
  match m with
  | (done, Ok a) => let '(more, r) := k a in (done ++ more, r)
  | (done, Err e) => (done, Err e)
  end.

Notation "x <~ m ;; k" := (built_bind m (fun x => k))
  (at level 61, m at next level, right associativity).

(** A step that builds nothing. *)
Definition plain {A : Type} (r : result A) : Built A := ([], r).

(** The layers of a [ConvLayer] that has been built; its normalisation has
    the width of its convolution, so that it is built whenever the
    convolution is. *)
Definition layers_of (c : ConvLayer) : list module :=
  map (fun layer => EngineLayer (snd layer)) (block c).

Definition built_ConvLayer (r : result ConvLayer) : Built ConvLayer :=
  match r with
  | Ok c => (layers_of c, Ok c)
  | Err e => ([], Err e)
  end.

Definition built_prim (r : result prim) : Built prim :=
  match r with
  | Ok m => ([EngineLayer m], Ok m)
  | Err e => ([], Err e)
  end.

(** Modelled from the spec: the external [TransformerEncoder] is built
    from its arguments, and building it is taken to succeed. *)
Definition built_encoders (e : TransformerEncoder) (n : Z)
  : Built (list global_layer) :=
  (repeat (Encoder e) (Z.to_nat n), Ok (repeat (GEncoder e) (Z.to_nat n))).


Definition MobileViTBlock_build (in_channels transformer_dim : Z)
  (ffn_dim : option Z) (n_transformer_blocks head_dim : Z)
  (attn_dropout dropout ffn_dropout : num) (patch_h patch_w conv_ksize : Z)
  : Built MobileViTBlock :=
  conv_3x3_in <~
    built_ConvLayer
      (ConvLayer_new in_channels in_channels (SizeInt conv_ksize) (SizeInt 1)
         1 false true true) ;;
  conv_1x1_in <~
    built_ConvLayer
      (ConvLayer_new in_channels transformer_dim (SizeInt 1) (SizeInt 1) 1
         false false false) ;;
  conv_1x1_out <~
    built_ConvLayer
      (ConvLayer_new transformer_dim in_channels (SizeInt 1) (SizeInt 1) 1
         false true true) ;;
  conv_3x3_out <~
    built_ConvLayer
      (ConvLayer_new (2 * in_channels) in_channels (SizeInt conv_ksize)
         (SizeInt 1) 1 false true true) ;;
  let local_rep :=
    [("conv_3x3"%string, conv_3x3_in); ("conv_1x1"%string, conv_1x1_in)] in
  r <~ plain (py_mod transformer_dim head_dim) ;;
  _ <~ plain (py_assert (r =? 0)) ;;
  num_heads <~ plain (py_floordiv transformer_dim head_dim) ;;
  global_rep <~
    built_encoders
      (mkTransformerEncoder transformer_dim ffn_dim num_heads
         attn_dropout dropout ffn_dropout) n_transformer_blocks ;;
  norm <~ built_prim (prim_new (LayerNorm transformer_dim)) ;;
  let global_rep := global_rep ++ [GNorm norm] in
  plain
    (Ok (mkMobileViTBlock local_rep global_rep conv_1x1_out conv_3x3_out
           patch_h patch_w (patch_w * patch_h) in_channels transformer_dim
           num_heads ffn_dim dropout attn_dropout ffn_dropout
           n_transformer_blocks conv_ksize)).

(** [MobileViTBlock(...)]: the outcome of the constructor. *)
Definition MobileViTBlock_init (in_channels transformer_dim : Z)
  (ffn_dim : option Z) (n_transformer_blocks head_dim : Z)
  (attn_dropout dropout ffn_dropout : num) (patch_h patch_w conv_ksize : Z)
  : result MobileViTBlock :=
  snd (MobileViTBlock_build in_channels transformer_dim ffn_dim
         n_transformer_blocks head_dim attn_dropout dropout ffn_dropout
         patch_h patch_w conv_ksize).

Record info_dict : Type := mkInfo {
  orig_size : Z * Z;
  batch_size : Z;
  interpolate : bool;
  total_patches : Z;
  num_patches_w : Z;
  num_patches_h : Z
}.

(** [math.ceil(a / b)] on integers. *)
Definition ceil_div (a b : Z) : Z := - ((- a) / b).

Definition unfolding {T : Type} `{TensorOps T} (self : MobileViTBlock) (x : T)
  : result (T * info_dict) :=
  let patch_w := patch_w self in
  let patch_h := patch_h self in
  let patch_area := patch_w * patch_h in
  match t_shape x with
  | [batch_size; in_channels; orig_h; orig_w] =>
      if (patch_h =? 0) || (patch_w =? 0) then Err ZeroDivisionError
      else
        let new_h := ceil_div orig_h patch_h * patch_h in
        let new_w := ceil_div orig_w patch_w * patch_w in
        let resample := negb (new_w =? orig_w) || negb (new_h =? orig_h) in
        x <- (if resample then t_interpolate x (new_h, new_w) else Ok x) ;;
        let num_patch_w := new_w / patch_w in
        let num_patch_h := new_h / patch_h in
        let num_patches := num_patch_h * num_patch_w in
        x <- t_reshape x [batch_size * in_channels * num_patch_h;
                          patch_h; num_patch_w; patch_w] ;;
        x <- t_transpose x 1 2 ;;
        x <- t_reshape x [batch_size; in_channels; num_patches; patch_area] ;;
        x <- t_transpose x 1 3 ;;
        x <- t_reshape x [batch_size * patch_area; num_patches; -1] ;;
        Ok (x, mkInfo (orig_h, orig_w) batch_size resample num_patches
                      num_patch_w num_patch_h)
  | _ => Err ValueError
  end.

Definition folding {T : Type} `{TensorOps T} (self : MobileViTBlock) (x : T)
  (info : info_dict) : result T :=
  _ <- py_assert (length (t_shape x) =? 3)%nat ;;
  x <- t_reshape x [batch_size info; patch_area self; total_patches info; -1] ;;
  match t_shape x with
  | [batch_size; pixels; num_patches; channels] =>
      let num_patch_h := num_patches_h info in
      let num_patch_w := num_patches_w info in
      x <- t_transpose x 1 3 ;;
      x <- t_reshape x [batch_size * channels * num_patch_h; num_patch_w;
                        patch_h self; patch_w self] ;;
      x <- t_transpose x 1 2 ;;
      x <- t_reshape x [batch_size; channels; num_patch_h * patch_h self;
                        num_patch_w * patch_w self] ;;
      if interpolate info then t_interpolate x (orig_size info) else Ok x
  | _ => Err ValueError
  end.

Definition run_global {T : Type} `{Engine T} (m : global_layer) (x : T)
  : result T :=
  match m with
  | GEncoder e => run_transformer e x
  | GNorm p => run_prim p x
  end.

Fixpoint run_global_rep {T : Type} `{Engine T} (layers : list global_layer)
  (patches : T) : result T :=
  match layers with
  | [] => Ok patches
  | m :: rest => y <- run_global m patches ;; run_global_rep rest y
  end.

Definition MobileViTBlock_forward {T : Type} `{Engine T}
  (self : MobileViTBlock) (x : T) : result T :=
  let res := x in
  fm <- sequential ConvLayer_forward (local_rep self) x ;;
  '(patches, info) <- unfolding self fm ;;
  patches <- run_global_rep (global_rep self) patches ;;
  fm <- folding self patches info ;;
  fm <- ConvLayer_forward (conv_proj self) fm ;;
  c <- t_cat [res; fm] 1 ;;
  ConvLayer_forward (fusion self) c.

(** ** Stage configurations and the stage builders *)

(** A stage configuration is a dictionary; a field is [None] when the key
    is absent. *)
Record StageConfig : Type := mkStageConfig {
  cfg_block_type : option string;
  cfg_out_channels : option Z;
  cfg_num_blocks : option Z;
  cfg_expand_ratio : option num;
  cfg_stride : option Z;
  cfg_mv_expand_ratio : option num;
  cfg_transformer_channels : option Z;
  cfg_ffn_dim : option Z;
  cfg_num_heads : option Z;
  cfg_transformer_blocks : option Z;
  cfg_patch_h : option Z;
  cfg_patch_w : option Z;
  cfg_dropout : option num;
  cfg_ffn_dropout : option num;
  cfg_attn_dropout : option num
}.

(** [cfg.get(key, default)] and [cfg[key]]. *)
Definition get {A : Type} (field : option A) (default : A) : A :=
  match field with
  | Some v => v
  | None => default
  end.

Definition getitem {A : Type} (field : option A) : result A :=
  match field with
  | Some v => Ok v
  | None => Err KeyError
  end.

Inductive stage_layer : Type :=
| SInverted (m : InvertedResidual)
| SMobileViT (m : MobileViTBlock).

Definition Stage : Type := list stage_layer.

(** The loop of [_make_mobilenet_layer], [n] iterations from index [i]. *)
Fixpoint mobilenet_loop (n : nat) (i : Z) (cfg : StageConfig)
  (output_channels : option Z) (expand_ratio : num)
  (input_channel : Z) (block : Stage) : result (Stage * Z) :=
  match n with
  | O => Ok (block, input_channel)
  | S n' =>
      let stride := if i =? 0 then get (cfg_stride cfg) 1 else 1 in
      layer <- InvertedResidual_init input_channel output_channels stride
                 expand_ratio true ;;
      input_channel <- require_int output_channels ;;
      mobilenet_loop n' (i + 1) cfg output_channels expand_ratio
        input_channel (block ++ [SInverted layer])
  end.

Definition _make_mobilenet_layer (input_channel : Z) (cfg : StageConfig)
  : result (Stage * Z) :=
  let output_channels := cfg_out_channels cfg in
  let num_blocks := get (cfg_num_blocks cfg) 2 in
  let expand_ratio := get (cfg_expand_ratio cfg) (PyInt 4) in
  mobilenet_loop (Z.to_nat num_blocks) 0 cfg output_channels expand_ratio
    input_channel [].

Definition _make_mit_layer (input_channel : Z) (cfg : StageConfig)
  : result (Stage * Z) :=
  let stride := get (cfg_stride cfg) 1 in
  '(block, input_channel) <-
    (if stride =? 2 then
       layer <- InvertedResidual_init input_channel (cfg_out_channels cfg)
                  stride (get (cfg_mv_expand_ratio cfg) (PyInt 4)) true ;;
       input_channel <- require_int (cfg_out_channels cfg) ;;
       Ok ([SInverted layer], input_channel)
     else Ok ([], input_channel)) ;;
  transformer_dim <- getitem (cfg_transformer_channels cfg) ;;
  let ffn_dim := cfg_ffn_dim cfg in
  let num_heads := get (cfg_num_heads cfg) 4 in
  head_dim <- py_floordiv transformer_dim num_heads ;;
  r <- py_mod transformer_dim head_dim ;;
  if negb (r =? 0) then Err ValueError
  else
    m <- MobileViTBlock_init input_channel transformer_dim ffn_dim
           (get (cfg_transformer_blocks cfg) 1) head_dim
           (get (cfg_attn_dropout cfg) (PyFloat (1 # 10)))
           (get (cfg_dropout cfg) (PyFloat (1 # 10)))
           (get (cfg_ffn_dropout cfg) (PyFloat 0))
           (get (cfg_patch_h cfg) 2) (get (cfg_patch_w cfg) 2) 3 ;;
    Ok (block ++ [SMobileViT m], input_channel).






(** ** The network [GIFT_CIP] *)







(** ** Auxiliary notions used by the statements *)

(** The multiple of [d] that [make_divisible] rounds a non-negative [q] to. *)
Definition candidate (q : Q) (d : Z) : Z :=
  Qfloor (q + inject_Z d / 2) / d * d.

(** The minimum in force: [min_value], or the divisor when it is [None]. *)
Definition minimum_of (d : Z) (min_value : option num) : Q :=
  match min_value with
  | None => inject_Z d
  | Some m => to_Q m
  end.

(** The transformation pipeline of a unit, without the shortcut. *)
Definition pipeline {T : Type} `{Engine T} (u : InvertedResidual) (x : T)
  : result T :=
  sequential ConvLayer_forward (ir_block u) x.

(** The convolution a [ConvLayer] starts with. *)
Definition first_conv (c : ConvLayer) : option prim :=
  match block c with
  | (_, m) :: _ => Some m
  | [] => None
  end.


(** A multi-index within the sizes of a shape. *)
Definition in_bounds (s idx : list Z) : Prop :=
  Forall2 (fun d j => 0 <= j < d) s idx.

(** What the layout operations do to the shape when they succeed. *)
Class TensorLaws (T : Type) `{TensorOps T} : Prop := {
  reshape_law : forall (x : T) (dims dims' : list Z),
    resolve_dims (numel (t_shape x)) dims = Ok dims' ->
    exists y, t_reshape x dims = Ok y /\ t_shape y = dims';
  transpose_law : forall (x : T) (a b : nat),
    (a < length (t_shape x))%nat -> (b < length (t_shape x))%nat ->
    exists y, t_transpose x a b = Ok y /\ t_shape y = swap a b (t_shape x);
  interpolate_law : forall (x : T) (b c h w nh nw : Z),
    t_shape x = [b; c; h; w] -> 0 < h -> 0 < w -> 0 < nh -> 0 < nw ->
    exists y, t_interpolate x (nh, nw) = Ok y /\ t_shape y = [b; c; nh; nw]
}.

(** The patch area of a block is the product of its patch sides, as the
    constructor sets it. *)
Definition block_consistent (self : MobileViTBlock) : Prop :=
  patch_area self = patch_w self * patch_h self.

(** A 3-channel 7 by 7 image holding 0, 1, 2, ... *)
Definition image_7x7 : Tensor :=
  mkTensor [1; 3; 7; 7] (map inject_Z (offsets 147)).

(** *** Configurations the network can be run with *)


Definition positive (o : option Z) : bool :=
  match o with Some z => 0 <? z | None => false end.

(** A dropout rate the engine accepts. *)
Definition probability (p : num) : bool :=
  negb (ltb p (PyInt 0)) && negb (ltb (PyInt 1) p).

(** Arguments an encoder is sure to be built from: a positive feed-forward
    width and dropout rates that are probabilities. *)
Definition encoder_args_ok (cfg : StageConfig) : bool :=
  positive (cfg_ffn_dim cfg)
  && probability (get (cfg_attn_dropout cfg) (PyFloat (1 # 10)))
  && probability (get (cfg_dropout cfg) (PyFloat (1 # 10)))
  && probability (get (cfg_ffn_dropout cfg) (PyFloat 0)).










(** A configuration with the stage widths of the small MobileViT model,
    for which the head of the network is dimensioned. *)
Definition mv2_stage (out num_blocks stride : Z) : StageConfig :=
  mkStageConfig (Some "mv2"%string) (Some out) (Some num_blocks)
    (Some (PyInt 4)) (Some stride) None None None None None None None
    None None None.



Definition mobilevit_stage_stride1 (out transformer_channels ffn blocks : Z)
  : StageConfig :=
  mkStageConfig (Some "mobilevit"%string) (Some out) None None (Some 1)
    (Some (PyInt 4)) (Some transformer_channels) (Some ffn) (Some 4)
    (Some blocks) (Some 2) (Some 2) (Some (PyFloat (1 # 10)))
    (Some (PyFloat 0)) (Some (PyFloat (1 # 10))).

(** A batch of two 3-channel 8 by 8 images holding 0, 1, 2, ... *)
Definition image_8x8 : Tensor :=
  mkTensor [2; 3; 8; 8] (map inject_Z (offsets 384)).

(** Two images' worth of 4 by 4 patches: 32 pixel positions, 4 patches,
    3 features, holding 0, 1, 2, ... *)
Definition patches_32x4x3 : Tensor :=
  mkTensor [32; 4; 3] (map inject_Z (offsets 384)).


(** * Properties *)

(** ** Rationals and Python numbers *)
Lemma Qfloor_div_Z (x : Q) (d : Z) :
  0 < d -> Qfloor (x / inject_Z d) = Qfloor x / d.
Proof.
  intros Hd. destruct x as [n m]. destruct d as [|p|p]; try lia.
  unfold Qdiv, Qinv, Qmult, inject_Z, Qfloor. simpl.
  rewrite Z.mul_1_r. rewrite Pos2Z.inj_mul.
  now rewrite Z.div_div by lia.
Qed.

Lemma trunc_nonneg (q : Q) : (0 <= q)%Q -> trunc q = Qfloor q.
Proof.
  intros H. unfold trunc.
  destruct (Qle_bool 0 q) eqn:E; [reflexivity|].
  apply Qle_bool_iff in H. congruence.
Qed.

Lemma Qltb_lt (a b : Q) : Qltb a b = true <-> (a < b)%Q.
Proof.
  unfold Qltb. rewrite negb_true_iff. split; intros H.
  - apply Qnot_le_lt. intros C. apply Qle_bool_iff in C. congruence.
  - destruct (Qle_bool b a) eqn:E; [|reflexivity].
    apply Qle_bool_iff in E. exfalso. exact (Qlt_not_le _ _ H E).
Qed.

Lemma Qltb_ge (a b : Q) : Qltb a b = false <-> (b <= a)%Q.
Proof.
  unfold Qltb. rewrite negb_false_iff. apply Qle_bool_iff.
Qed.
Lemma candidate_step_gt (q : Q) (d : Z) :
  0 < d -> (q < inject_Z (candidate q d) + inject_Z d)%Q.
Proof.
  intros Hd. unfold candidate.
  set (f := Qfloor (q + inject_Z d / 2)).
  pose proof (Qlt_floor (q + inject_Z d / 2)) as Hf. fold f in Hf.
  pose proof (Z.mod_pos_bound f d Hd) as Hm.
  pose proof (Z.div_mod f d ltac:(lia)) as He.
  assert (Hz : f + 1 <= f / d * d + d) by lia.
  rewrite Zle_Qle in Hz. rewrite !inject_Z_plus in Hz, Hf.
  assert (Hd' : (0 < inject_Z d)%Q) by (rewrite Zlt_Qlt in Hd; exact Hd).
  change (inject_Z 1) with 1%Q in *.
  rewrite (inject_Z_plus (f / d * d) d) in Hz. clearbody f. unfold Qdiv in Hf. change (/ 2)%Q with (1 # 2)%Q in Hf. lra.
Qed.

Lemma candidate_nonneg (q : Q) (d : Z) :
  0 < d -> (0 <= q)%Q -> 0 <= candidate q d.
Proof.
  intros Hd Hq. unfold candidate.
  assert (0 <= Qfloor (q + inject_Z d / 2)).
  { change 0 with (Qfloor 0). apply Qfloor_resp_le.
    assert (Hd' : (0 < inject_Z d)%Q) by (rewrite Zlt_Qlt in Hd; exact Hd).
    unfold Qdiv. change (/ 2)%Q with (1 # 2)%Q. lra. }
  apply Z.mul_nonneg_nonneg; [|lia]. apply Z.div_pos; lia.
Qed.

Lemma Qltb_compat (a a' b b' : Q) :
  (a == a')%Q -> (b == b')%Q -> Qltb a b = Qltb a' b'.
Proof.
  intros Ha Hb.
  destruct (Qltb a b) eqn:E1, (Qltb a' b') eqn:E2; try reflexivity.
  - apply Qltb_lt in E1. apply Qltb_ge in E2. lra.
  - apply Qltb_ge in E1. apply Qltb_lt in E2. lra.
Qed.

Lemma to_Q_add (a b : num) : (to_Q (PyNum.add a b) == to_Q a + to_Q b)%Q.
Proof.
  destruct a, b; simpl; try reflexivity. rewrite inject_Z_plus. reflexivity.
Qed.

Lemma to_Q_max (a b : num) : (to_Q (PyNum.max a b) == Qmax (to_Q a) (to_Q b))%Q.
Proof.
  unfold PyNum.max, ltb.
  destruct (Qltb (to_Q a) (to_Q b)) eqn:E.
  - apply Qltb_lt in E. symmetry. apply Q.max_r. lra.
  - apply Qltb_ge in E. symmetry. apply Q.max_l. exact E.
Qed.

(** In exact arithmetic, for a non-negative value and a positive divisor,
    the rounder returns what the rule of the specification gives; the
    result is at least the minimum and at least nine tenths of the value,
    and a positive multiple of the divisor whenever the minimum is one. *)
Lemma make_divisible_rational (v : num) (d : Z) (min_value : option num) :
  (0 <= to_Q v)%Q -> 0 < d ->
  exists r,
    make_divisible v d min_value = Ok r
    /\ (to_Q r == make_divisible_spec (to_Q v) d (minimum_of d min_value))%Q
    /\ (minimum_of d min_value <= to_Q r)%Q
    /\ ((9 # 10) * to_Q v <= to_Q r)%Q
    /\ ((exists m, 0 < m /\ (minimum_of d min_value == inject_Z (m * d))%Q) ->
        exists k, 0 < k /\ (to_Q r == inject_Z (k * d))%Q).
Proof.
  intros Hv Hd.
  assert (Hd' : (0 < inject_Z d)%Q) by (rewrite Zlt_Qlt in Hd; exact Hd).
  unfold make_divisible, make_divisible_spec.
  replace (d =? 0) with false by (symmetry; apply Z.eqb_neq; lia).
  rewrite Qfloor_div_Z by exact Hd.
  rewrite trunc_nonneg
    by (unfold Qdiv; change (/ 2)%Q with (1 # 2)%Q; lra).
  fold (candidate (to_Q v) d).
  pose proof (candidate_step_gt (to_Q v) d Hd) as Hstep.
  pose proof (candidate_nonneg (to_Q v) d Hd Hv) as Hnn.
  assert (Hmul : exists j, candidate (to_Q v) d = j * d)
    by (eexists; reflexivity).
  set (c := candidate (to_Q v) d) in *. clearbody c.
  set (mn := match min_value with None => PyInt d | Some m => m end).
  assert (Hmn : to_Q mn = minimum_of d min_value)
    by (destruct min_value; reflexivity).
  rewrite <- Hmn. clearbody mn. clear Hmn.
  pose proof (to_Q_max mn (PyInt c)) as Hmax. simpl in Hmax.
  set (new_v := PyNum.max mn (PyInt c)) in *.
  assert (Hge_min : (to_Q mn <= to_Q new_v)%Q)
    by (rewrite Hmax; apply Q.le_max_l).
  assert (Hge_c : (inject_Z c <= to_Q new_v)%Q)
    by (rewrite Hmax; apply Q.le_max_r).
  assert (Hmult : (exists m, 0 < m /\ (to_Q mn == inject_Z (m * d))%Q) ->
                  exists k, 0 < k /\ (to_Q new_v == inject_Z (k * d))%Q).
  { intros [m [Hm Hme]]. destruct Hmul as [j Hj].
    destruct (Qlt_le_dec (to_Q mn) (inject_Z c)) as [Hlt | Hle].
    - exists j. split.
      + rewrite Hme, Hj in Hlt. rewrite <- Zlt_Qlt in Hlt. nia.
      + rewrite Hmax, <- Hj. apply Q.max_r. lra.
    - exists m. split; [exact Hm|]. rewrite Hmax, <- Hme. apply Q.max_l.
      exact Hle. }
  clearbody new_v.
  unfold ltb at 1. simpl to_Q at 2.
  rewrite (Qltb_compat (Qmax (to_Q mn) (inject_Z c)) (to_Q new_v)
             ((9 # 10) * to_Q v) ((9 # 10) * to_Q v))
    by (try reflexivity; symmetry; exact Hmax).
  destruct (Qltb (to_Q new_v) ((9 # 10) * to_Q v)) eqn:E.
  - exists (PyNum.add new_v (PyInt d)). split; [reflexivity|].
    pose proof (to_Q_add new_v (PyInt d)) as Ha. simpl to_Q at 3 in Ha.
    repeat split.
    + rewrite Ha, Hmax. reflexivity.
    + rewrite Ha. lra.
    + rewrite Ha. lra.
    + intros Hm. destruct (Hmult Hm) as [k [Hk Hke]].
      exists (k + 1). split; [lia|].
      rewrite Ha, Hke. replace ((k + 1) * d) with (k * d + d) by ring.
      rewrite inject_Z_plus. reflexivity.
  - apply Qltb_ge in E.
    exists new_v. split; [reflexivity|].
    repeat split; assumption.
Qed.

Lemma max_int (a b : Z) : PyNum.max (PyInt a) (PyInt b) = PyInt (Z.max a b).
Proof.
  unfold PyNum.max, ltb. simpl to_Q.
  destruct (Qltb (inject_Z a) (inject_Z b)) eqn:E.
  - apply Qltb_lt in E. rewrite <- Zlt_Qlt in E. f_equal. lia.
  - apply Qltb_ge in E. rewrite <- Zle_Qle in E. f_equal. lia.
Qed.

(** On integers the rounder returns an integer. *)
Lemma make_divisible_int (v d : Z) (min_value : option Z) (r : num) :
  make_divisible (PyInt v) d (option_map PyInt min_value) = Ok r ->
  exists z, r = PyInt z.
Proof.
  unfold make_divisible. destruct (d =? 0); [discriminate|].
  destruct min_value as [m|]; cbn [option_map]; rewrite max_int;
    destruct (ltb _ _); intros Hr; injection Hr as <-; eexists; reflexivity.
Qed.

(** C3 (amended): for an integer value from 0 to 2^48, a positive divisor
    up to 2^48 and an integer minimum (the divisor when none is given),
    [make_divisible] returns the integer the rule of the specification
    gives (the larger of the minimum and the value rounded to a multiple of
    the divisor, plus one divisor when that is below nine tenths of the
    value); the result is at least the minimum and at least nine tenths of
    the value, and it is a positive multiple of the divisor whenever the
    minimum is one, as the default minimum is. *)
Theorem make_divisible_correct (v d : Z) (min_value : option Z) :
  0 <= v <= 2 ^ 48 -> 0 < d <= 2 ^ 48 ->
  exists r,
    make_divisible (PyInt v) d (option_map PyInt min_value) = Ok (PyInt r)
    /\ (inject_Z r
        == make_divisible_spec (inject_Z v) d
             (minimum_of d (option_map PyInt min_value)))%Q
    /\ (minimum_of d (option_map PyInt min_value) <= inject_Z r)%Q
    /\ 9 * v <= 10 * r
    /\ ((exists m,
            0 < m
            /\ (minimum_of d (option_map PyInt min_value)
                == inject_Z (m * d))%Q) ->
        exists k, 0 < k /\ r = k * d).
Proof.
  intros Hv Hd.
  destruct (make_divisible_rational (PyInt v) d (option_map PyInt min_value))
    as [r [Hr [Hspec [Hmin [H9 Hmul]]]]].
  - change (to_Q (PyInt v)) with (inject_Z v).
    change 0%Q with (inject_Z 0). rewrite <- Zle_Qle. lia.
  - lia.
  - destruct (make_divisible_int _ _ _ _ Hr) as [z ->].
    change (to_Q (PyInt z)) with (inject_Z z) in *.
    change (to_Q (PyInt v)) with (inject_Z v) in *.
    exists z. split; [exact Hr|]. split; [exact Hspec|].
    split; [exact Hmin|]. split.
    + assert (H : (inject_Z 9 * inject_Z v <= inject_Z 10 * inject_Z z)%Q).
      { change (inject_Z 9) with 9%Q. change (inject_Z 10) with 10%Q. lra. }
      rewrite <- !inject_Z_mult, <- Zle_Qle in H. exact H.
    + intros Hm. destruct (Hmul Hm) as [k [Hk Hke]].
      exists k. split; [exact Hk|].
      apply (proj1 (inject_Z_injective z (k * d))). exact Hke.
Qed.

(** On a fractional value the rounding of binary64 shows: for
    8.88888888888889 and the divisor 8 the product [0.9 * v] rounds
    to 8.0, so that the candidate 8 is returned although it is below nine
    tenths of the value; computed exactly the result is 16. *)
Lemma make_divisible_binary64_fraction :
  make_divisible_binary64 eight_and_eight_ninths 8 = Ok 8
  /\ exists q,
       Binary64.value eight_and_eight_ninths = Some q
       /\ (inject_Z 8 < (9 # 10) * q)%Q
       /\ make_divisible (PyFloat q) 8 None = Ok (PyInt 16).
Proof.
  split; [vm_compute; reflexivity|].
  eexists. split; [reflexivity|]. split; vm_compute; reflexivity.
Qed.

(** With the divisor 8, the only one the network rounds with, the exact
    computation returns what binary64 returns for every integer up to
    4096. *)
Lemma make_divisible_binary64_agrees (v : Z) :
  0 <= v <= 4096 ->
  exists r,
    make_divisible_binary64 (Binary64.of_int v) 8 = Ok r
    /\ make_divisible (PyInt v) 8 None = Ok (PyInt r).
Proof.
  intros Hv.
  assert (Hall : forallb (same_in_binary64 8) (offsets 4097) = true)
    by (vm_compute; reflexivity).
  rewrite forallb_forall in Hall.
  assert (Hin : In v (offsets 4097)).
  { unfold offsets. rewrite <- (Z2Nat.id v) by lia.
    apply in_map. apply in_seq. lia. }
  specialize (Hall v Hin). unfold same_in_binary64 in Hall.
  destruct (make_divisible_binary64 (Binary64.of_int v) 8) as [a|];
    [|discriminate Hall].
  destruct (make_divisible (PyInt v) 8 None) as [[b|q]|];
    try discriminate Hall.
  apply Z.eqb_eq in Hall. subst b. exists a. auto.
Qed.

(** Beyond that range the two computations agree on the integers of the
    statements above, for instance at 44 with the divisor 8 and at 2^48
    with the divisor 10. *)
Lemma make_divisible_binary64_integer :
  make_divisible_binary64 (Binary64.of_int 44) 8 = Ok 48
  /\ make_divisible (PyInt 44) 8 None = Ok (PyInt 48)
  /\ make_divisible_binary64 (Binary64.of_int (2 ^ 48)) 10
     = Ok ((2 ^ 48 + 5) / 10 * 10)
  /\ make_divisible (PyInt (2 ^ 48)) 10 None
     = Ok (PyInt ((2 ^ 48 + 5) / 10 * 10)).
Proof.
  repeat split; vm_compute; reflexivity.
Qed.

(** ** Constructors *)

Lemma prim_new_inv (m m' : prim) : prim_new m = Ok m' -> m' = m.
Proof.
  destruct m; cbn [prim_new];
    repeat match goal with
           | |- context [if ?b then _ else _] => destruct b
           end; congruence.
Qed.

Lemma ConvLayer_new_inv (cin cout : Z) (k s : size_arg) (g : Z)
  (bias use_norm use_act : bool) (c : ConvLayer) :
  ConvLayer_new cin cout k s g bias use_norm use_act = Ok c ->
  c = ConvLayer_init cin cout k s g bias use_norm use_act.
Proof.
  unfold ConvLayer_new. destruct (build_layers _); cbn [bind]; congruence.
Qed.

(** The engine builds a convolution layer whose groups divide its
    non-negative widths. *)
Lemma ConvLayer_new_ok (cin cout k s g : Z) (bias use_norm use_act : bool) :
  0 < g -> cin mod g = 0 -> cout mod g = 0 ->
  0 <= cout -> 0 <= cin / g -> 0 <= k ->
  ConvLayer_new cin cout (SizeInt k) (SizeInt s) g bias use_norm use_act
  = Ok (ConvLayer_init cin cout (SizeInt k) (SizeInt s) g bias use_norm
          use_act).
Proof.
  intros Hg Hi Ho Hc Hq Hk. unfold ConvLayer_new, ConvLayer_init.
  cbn [as_pair fst snd].
  assert (Hconv : forall st pad,
             prim_new (Conv2d cin cout (k, k) st pad g bias)
             = Ok (Conv2d cin cout (k, k) st pad g bias)).
  { intros st pad. cbn [prim_new fst snd].
    replace (g <=? 0) with false by (symmetry; apply Z.leb_gt; lia).
    rewrite Hi, Ho. cbn [Z.eqb negb].
    replace (cout <? 0) with false by (symmetry; apply Z.ltb_ge; lia).
    replace (cin / g <? 0) with false by (symmetry; apply Z.ltb_ge; lia).
    replace (k <? 0) with false by (symmetry; apply Z.ltb_ge; lia).
    reflexivity. }
  assert (Hnorm : prim_new (BatchNorm2d cout) = Ok (BatchNorm2d cout)).
  { cbn [prim_new].
    replace (cout <? 0) with false by (symmetry; apply Z.ltb_ge; lia).
    reflexivity. }
  destruct use_norm, use_act; cbn [app block build_layers];
    rewrite Hconv; cbn [bind]; rewrite ?Hnorm; reflexivity.
Qed.

Lemma ConvLayer_new_ungrouped (cin cout k s : Z)
  (bias use_norm use_act : bool) :
  0 <= cin -> 0 <= cout -> 0 <= k ->
  ConvLayer_new cin cout (SizeInt k) (SizeInt s) 1 bias use_norm use_act
  = Ok (ConvLayer_init cin cout (SizeInt k) (SizeInt s) 1 bias use_norm
          use_act).
Proof.
  intros Hi Ho Hk. apply ConvLayer_new_ok; rewrite ?Z.mod_1_r, ?Z.div_1_r; lia.
Qed.

Lemma ConvLayer_new_depthwise (c k s : Z) (bias use_norm use_act : bool) :
  0 < c -> 0 <= k ->
  ConvLayer_new c c (SizeInt k) (SizeInt s) c bias use_norm use_act
  = Ok (ConvLayer_init c c (SizeInt k) (SizeInt s) c bias use_norm use_act).
Proof.
  intros Hc Hk.
  apply ConvLayer_new_ok; rewrite ?Z.mod_same, ?Z.div_same by lia; lia.
Qed.

Lemma hidden_dim_of_multiple_of_8 (in_channels : Z) (expand_ratio : num) :
  exists h,
    hidden_dim_of in_channels expand_ratio = Ok (PyInt h)
    /\ 8 <= h /\ h mod 8 = 0.
Proof.
  unfold hidden_dim_of, make_divisible. simpl (8 =? 0). cbv iota.
  rewrite max_int.
  set (c := trunc _ / 8 * 8).
  assert (Hm : Z.max 8 c mod 8 = 0).
  { destruct (Z.max_spec 8 c) as [[_ ->] | [_ ->]]; [|reflexivity].
    unfold c. apply Z.mod_mul. lia. }
  destruct (ltb (PyInt (Z.max 8 c)) _).
  - exists (Z.max 8 c + 8). split; [reflexivity|]. split; [lia|].
    rewrite <- Z.add_mod_idemp_l, Hm by lia. reflexivity.
  - exists (Z.max 8 c). split; [reflexivity|]. split; [lia | exact Hm].
Qed.

(** A unit that has been built: its hidden width and its parts. *)
Lemma InvertedResidual_init_record (in_channels : Z) (out_channels : option Z)
  (stride : Z) (expand_ratio : num) (skip_connection : bool)
  (u : InvertedResidual) :
  InvertedResidual_init in_channels out_channels stride expand_ratio
    skip_connection = Ok u ->
  exists hidden_dim out,
    hidden_dim_of in_channels expand_ratio = Ok (PyInt hidden_dim)
    /\ 8 <= hidden_dim /\ hidden_dim mod 8 = 0
    /\ out_channels = Some out
    /\ (stride = 1 \/ stride = 2)
    /\ u = mkInvertedResidual
             ((if neb expand_ratio (PyInt 1)
               then [("exp_1x1"%string,
                      ConvLayer_init in_channels hidden_dim (SizeInt 1)
                                     (SizeInt 1) 1 false true true)]
               else [])
              ++ [("conv_3x3"%string,
                   ConvLayer_init hidden_dim hidden_dim (SizeInt 3)
                                  (SizeInt stride) hidden_dim false true true);
                  ("red_1x1"%string,
                   ConvLayer_init hidden_dim out (SizeInt 1) (SizeInt 1) 1
                                  false true false)])
             in_channels out expand_ratio stride
             ((stride =? 1) && (in_channels =? out) && skip_connection).
Proof.
  unfold InvertedResidual_init. intros H.
  destruct ((stride =? 1) || (stride =? 2)) eqn:Es; [|discriminate H].
  cbn [py_assert bind] in H.
  destruct (hidden_dim_of_multiple_of_8 in_channels expand_ratio)
    as [h [Hh [H8 Hm]]].
  rewrite Hh in H. cbn [bind as_channels] in H.
  assert (Hs : stride = 1 \/ stride = 2).
  { apply orb_true_iff in Es.
    destruct Es as [E|E]; apply Z.eqb_eq in E; auto. }
  destruct (neb expand_ratio (PyInt 1)).
  - destruct (ConvLayer_new in_channels h _ _ _ _ _ _) as [c1|] eqn:E1;
      cbn [bind] in H; [|discriminate H].
    destruct (ConvLayer_new h h _ _ _ _ _ _) as [c2|] eqn:E2;
      cbn [bind] in H; [|discriminate H].
    destruct out_channels as [out|]; cbn [require_int bind] in H;
      [|discriminate H].
    destruct (ConvLayer_new h out _ _ _ _ _ _) as [c3|] eqn:E3;
      cbn [bind] in H; [|discriminate H].
    apply ConvLayer_new_inv in E1, E2, E3. subst c1 c2 c3.
    injection H as <-. exists h, out. cbn [app]. auto 10.
  - cbn [bind] in H.
    destruct (ConvLayer_new h h _ _ _ _ _ _) as [c2|] eqn:E2;
      cbn [bind] in H; [|discriminate H].
    destruct out_channels as [out|]; cbn [require_int bind] in H;
      [|discriminate H].
    destruct (ConvLayer_new h out _ _ _ _ _ _) as [c3|] eqn:E3;
      cbn [bind] in H; [|discriminate H].
    apply ConvLayer_new_inv in E2, E3. subst c2 c3.
    injection H as <-. exists h, out. cbn [app]. auto 10.
Qed.

Lemma InvertedResidual_init_inv (in_channels : Z) (out_channels : option Z)
  (stride : Z) (expand_ratio : num) (skip_connection : bool)
  (u : InvertedResidual) :
  InvertedResidual_init in_channels out_channels stride expand_ratio
    skip_connection = Ok u ->
  exists out,
    out_channels = Some out
    /\ (stride = 1 \/ stride = 2)
    /\ ir_in_channels u = in_channels
    /\ ir_out_channels u = out
    /\ ir_stride u = stride
    /\ ir_exp u = expand_ratio
    /\ use_res_connect u
       = (stride =? 1) && (in_channels =? out) && skip_connection.
Proof.
  intros H. apply InvertedResidual_init_record in H.
  destruct H as [h [out [_ [_ [_ [Ho [Hs ->]]]]]]].
  exists out. cbn. auto 10.
Qed.


Section InvertedResidualForward.

Context {T : Type} `{Engine T}.

(** C4: the forward operation of a constructed unit adds its input to the
    pipeline's output exactly when the unit was built with stride 1,
    equal channel counts and the skip flag set, and otherwise returns
    the pipeline's output alone. *)
Theorem InvertedResidual_forward_skip (in_channels out_channels stride : Z)
  (expand_ratio : num) (skip_connection : bool) (u : InvertedResidual)
  (x : T) :
  InvertedResidual_init in_channels (Some out_channels) stride expand_ratio
    skip_connection = Ok u ->
  let cond :=
    (stride =? 1) && (in_channels =? out_channels) && skip_connection in
  (cond = true ->
   InvertedResidual_forward u x = (y <- pipeline u x ;; t_add x y))
  /\ (cond = false -> InvertedResidual_forward u x = pipeline u x).
Proof.
  intros Hinit cond.
  destruct (InvertedResidual_init_inv _ _ _ _ _ _ Hinit)
    as [out [Ho [_ [_ [_ [_ [_ Hres]]]]]]].
  injection Ho as <-. fold cond in Hres.
  unfold InvertedResidual_forward, pipeline. rewrite Hres.
  split; intros ->; reflexivity.
Qed.

End InvertedResidualForward.

Lemma InvertedResidual_forward_skip_witness :
  exists u,
    InvertedResidual_init 32 (Some 32) 1 (PyInt 4) true = Ok u
    /\ InvertedResidual_forward (T := Shape) u [1; 32; 8; 8]
       = (y <- pipeline u [1; 32; 8; 8] ;; t_add [1; 32; 8; 8] y)
    /\ InvertedResidual_forward (T := Shape) u [1; 32; 8; 8]
       = Ok [1; 32; 8; 8].
Proof.
  eexists. split; [reflexivity|]. split; [|reflexivity].
  apply (InvertedResidual_forward_skip 32 32 1 (PyInt 4) true);
    reflexivity.
Defined.

(** C7: with expansion ratio 1 and 12 input channels the expansion layer is
    omitted, yet the depthwise convolution is built for
    [make_divisible(12, 8) = 16] channels, not for the 12 channels it
    receives, and the forward operation fails on a 12-channel input. *)
Theorem expand_ratio_one_depthwise_width :
  exists u conv_3x3 red_1x1,
    InvertedResidual_init 12 (Some 12) 1 (PyInt 1) true = Ok u
    /\ ir_block u = [("conv_3x3"%string, conv_3x3); ("red_1x1"%string, red_1x1)]
    /\ first_conv conv_3x3
       = Some (Conv2d 16 16 (3, 3) (1, 1) (1, 1) 16 false)
    /\ InvertedResidual_forward (T := Shape) u [1; 12; 8; 8]
       = Err RuntimeError.
Proof.
  do 3 eexists. repeat split; reflexivity.
Qed.

(** With expansion ratio 1 the depthwise stage is as wide as the input
    only for the channel counts [make_divisible] leaves alone. *)
Lemma expand_ratio_one_multiple_of_8 (k : Z) :
  0 < k -> 8 * k <= 2 ^ 48 ->
  hidden_dim_of (8 * k) (PyInt 1) = Ok (PyInt (8 * k)).
Proof.
  intros Hk _. remember (8 * k) as c eqn:Hc.
  unfold hidden_dim_of, make_divisible. simpl (8 =? 0). cbv iota.
  change (py_int (py_round (PyNum.mul (PyInt c) (PyInt 1)))) with (c * 1).
  rewrite Z.mul_1_r. change (to_Q (PyInt c)) with (inject_Z c).
  assert (He : (inject_Z c + inject_Z 8 / 2 == inject_Z (c + 4))%Q).
  { rewrite inject_Z_plus. change (inject_Z 8) with 8%Q.
    change (inject_Z 4) with 4%Q. field. }
  assert (Hp : (0 <= inject_Z (c + 4))%Q)
    by (change 0%Q with (inject_Z 0); rewrite <- Zle_Qle; lia).
  rewrite trunc_nonneg by (rewrite He; exact Hp).
  assert (Hf : Qfloor (inject_Z c + inject_Z 8 / 2) = c + 4)
    by (rewrite He; apply Qfloor_Z).
  rewrite Hf.
  replace ((c + 4) / 8 * 8) with c.
  2:{ subst c. replace (8 * k + 4) with (k * 8 + 4) by ring.
      rewrite Z.div_add_l by lia. change (4 / 8) with 0. lia. }
  assert (Hmax : PyNum.max (PyInt 8) (PyInt c) = PyInt c).
  { unfold PyNum.max, ltb. simpl to_Q.
    destruct (Qltb (inject_Z 8) (inject_Z c)) eqn:E; [reflexivity|].
    apply Qltb_ge in E. rewrite <- Zle_Qle in E. f_equal. lia. }
  rewrite Hmax.
  assert (Hlt : ltb (PyInt c) (PyFloat ((9 # 10) * inject_Z c)) = false).
  { unfold ltb. simpl to_Q. apply Qltb_ge.
    assert (0 <= inject_Z c)%Q
      by (change 0%Q with (inject_Z 0); rewrite <- Zle_Qle; lia).
    lra. }
  rewrite Hlt. reflexivity.
Qed.

Lemma snd_built_bind {A B : Type} (m : Built A) (k : A -> Built B) :
  snd (built_bind m k) = (a <- snd m ;; snd (k a)).
Proof.
  destruct m as [done [a|e]]; cbn [built_bind snd bind]; [|reflexivity].
  destruct (k a). reflexivity.
Qed.

(** The outcome of the constructor, step by step. *)
Lemma MobileViTBlock_init_eq (in_channels transformer_dim : Z)
  (ffn : option Z) (n_transformer_blocks head_dim : Z)
  (attn_dropout' dropout' ffn_dropout' : num)
  (patch_h' patch_w' conv_ksize' : Z) :
  MobileViTBlock_init in_channels transformer_dim ffn n_transformer_blocks
    head_dim attn_dropout' dropout' ffn_dropout' patch_h' patch_w' conv_ksize'
  = (conv_3x3_in <- ConvLayer_new in_channels in_channels (SizeInt conv_ksize')
                      (SizeInt 1) 1 false true true ;;
     conv_1x1_in <- ConvLayer_new in_channels transformer_dim (SizeInt 1)
                      (SizeInt 1) 1 false false false ;;
     conv_1x1_out <- ConvLayer_new transformer_dim in_channels (SizeInt 1)
                       (SizeInt 1) 1 false true true ;;
     conv_3x3_out <- ConvLayer_new (2 * in_channels) in_channels
                       (SizeInt conv_ksize') (SizeInt 1) 1 false true true ;;
     r <- py_mod transformer_dim head_dim ;;
     _ <- py_assert (r =? 0) ;;
     num_heads <- py_floordiv transformer_dim head_dim ;;
     norm <- prim_new (LayerNorm transformer_dim) ;;
     Ok (mkMobileViTBlock
           [("conv_3x3"%string, conv_3x3_in); ("conv_1x1"%string, conv_1x1_in)]
           (repeat (GEncoder (mkTransformerEncoder transformer_dim ffn
                                num_heads attn_dropout' dropout' ffn_dropout'))
                   (Z.to_nat n_transformer_blocks)
            ++ [GNorm norm])
           conv_1x1_out conv_3x3_out
           patch_h' patch_w' (patch_w' * patch_h') in_channels transformer_dim
           num_heads ffn dropout' attn_dropout' ffn_dropout'
           n_transformer_blocks conv_ksize')).
Proof.
  unfold MobileViTBlock_init, MobileViTBlock_build.
  do 4 (rewrite snd_built_bind;
        match goal with
        | |- context [built_ConvLayer ?r] => destruct r
        end; cbn [built_ConvLayer snd bind]; [|reflexivity]).
  rewrite snd_built_bind. cbn [plain snd].
  destruct (py_mod transformer_dim head_dim) as [r|]; cbn [bind];
    [|reflexivity].
  rewrite snd_built_bind. cbn [plain snd].
  destruct (py_assert (r =? 0)); cbn [bind]; [|reflexivity].
  rewrite snd_built_bind. cbn [plain snd].
  destruct (py_floordiv transformer_dim head_dim) as [nh|]; cbn [bind];
    [|reflexivity].
  rewrite snd_built_bind. cbn [built_encoders snd bind].
  rewrite snd_built_bind.
  destruct (prim_new (LayerNorm transformer_dim)); reflexivity.
Qed.




(** ** The residual-stack builder *)



(** ** Row-major indexing *)

Lemma numel_pos (s : list Z) : Forall (fun d => 0 < d) s -> 0 < numel s.
Proof.
  induction 1 as [|d s Hd _ IH]; simpl; [lia | nia].
Qed.

Lemma numel_nonneg (s : list Z) : Forall (fun d => 0 <= d) s -> 0 <= numel s.
Proof.
  induction 1 as [|d s Hd _ IH]; simpl; [lia | nia].
Qed.

Lemma numel_app (s1 s2 : list Z) : numel (s1 ++ s2) = numel s1 * numel s2.
Proof.
  induction s1 as [|d s1 IH]; simpl; [destruct (numel s2); reflexivity|].
  rewrite IH. ring.
Qed.

Lemma unravel_in_bounds (s : list Z) :
  Forall (fun d => 0 < d) s ->
  forall i, 0 <= i < numel s -> in_bounds s (unravel s i).
Proof.
  induction 1 as [|d s Hd Hs IH]; intros i Hi; simpl; constructor.
  - simpl in Hi. pose proof (numel_pos s Hs) as Hp. split.
    + apply Z.div_pos; lia.
    + apply Z.div_lt_upper_bound; [lia | nia].
  - apply IH. apply Z.mod_pos_bound. now apply numel_pos.
Qed.

Lemma ravel_unravel (s : list Z) :
  Forall (fun d => 0 < d) s ->
  forall i, 0 <= i < numel s -> ravel s (unravel s i) = i.
Proof.
  induction 1 as [|d s Hd Hs IH]; intros i Hi; simpl.
  - simpl in Hi. lia.
  - pose proof (numel_pos s Hs) as Hp.
    rewrite IH by (apply Z.mod_pos_bound; exact Hp).
    pose proof (Z.div_mod i (numel s) ltac:(lia)). lia.
Qed.

Lemma ravel_bounds (s idx : list Z) :
  in_bounds s idx -> 0 <= ravel s idx < numel s.
Proof.
  induction 1 as [|d j s idx Hj _ IH]; simpl; [lia | nia].
Qed.

Lemma unravel_ravel (s idx : list Z) :
  in_bounds s idx -> unravel s (ravel s idx) = idx.
Proof.
  induction 1 as [|d j s idx Hj Hb IH]; simpl; [reflexivity|].
  pose proof (ravel_bounds _ _ Hb) as Hr.
  f_equal.
  - rewrite Z.div_add_l by lia. rewrite Z.div_small by lia. lia.
  - rewrite Z.add_comm, Z.mod_add by lia.
    rewrite Z.mod_small by lia. exact IH.
Qed.

(** ** Exchanging two axes *)

Lemma swap_length (a b : nat) (l : list Z) :
  length (swap a b l) = length l.
Proof.
  unfold swap. now rewrite length_map, length_seq.
Qed.

Lemma swap_pos_lt (a b k n : nat) :
  (a < n -> b < n -> k < n -> swap_pos a b k < n)%nat.
Proof.
  intros Ha Hb Hk. unfold swap_pos.
  destruct (Nat.eqb k a); [exact Hb|]. destruct (Nat.eqb k b); assumption.
Qed.

Lemma swap_pos_involutive (a b k : nat) :
  swap_pos a b (swap_pos a b k) = k.
Proof.
  unfold swap_pos.
  destruct (Nat.eqb_spec k a) as [->|Hka].
  - destruct (Nat.eqb_spec b a) as [->|Hba]; [reflexivity|].
    now rewrite Nat.eqb_refl.
  - destruct (Nat.eqb_spec k b) as [->|Hkb].
    + now rewrite Nat.eqb_refl.
    + destruct (Nat.eqb_spec k a); [contradiction|].
      destruct (Nat.eqb_spec k b); [contradiction|reflexivity].
Qed.

Lemma nth_swap (a b k : nat) (l : list Z) :
  (k < length l)%nat -> nth k (swap a b l) 0 = nth (swap_pos a b k) l 0.
Proof.
  intros Hk. unfold swap.
  rewrite (nth_indep _ 0 (nth (swap_pos a b 0%nat) l 0))
    by (now rewrite length_map, length_seq).
  rewrite (map_nth (fun k => nth (swap_pos a b k) l 0)).
  now rewrite seq_nth.
Qed.

Lemma swap_swap (a b : nat) (l : list Z) :
  (a < length l)%nat -> (b < length l)%nat -> swap a b (swap a b l) = l.
Proof.
  intros Ha Hb. apply (nth_ext _ _ 0 0).
  - now rewrite !swap_length.
  - intros k Hk. rewrite !swap_length in Hk.
    rewrite nth_swap by (now rewrite swap_length).
    rewrite nth_swap by (now apply swap_pos_lt).
    now rewrite swap_pos_involutive.
Qed.

Lemma in_bounds_nth (s idx : list Z) :
  in_bounds s idx <->
  length s = length idx
  /\ forall k, (k < length s)%nat -> 0 <= nth k idx 0 < nth k s 0.
Proof.
  split.
  - induction 1 as [|d j s idx Hj _ [IHl IHn]]; simpl.
    + split; [reflexivity | intros k Hk; lia].
    + split; [now f_equal|]. intros [|k] Hk; [exact Hj|].
      apply IHn. lia.
  - revert idx. induction s as [|d s IH]; intros [|j idx] [Hl Hn];
      try discriminate Hl; constructor.
    + apply (Hn 0%nat). simpl. lia.
    + apply IH. split; [now injection Hl|].
      intros k Hk. apply (Hn (S k)). simpl. lia.
Qed.

Lemma in_bounds_swap (a b : nat) (s idx : list Z) :
  (a < length s)%nat -> (b < length s)%nat ->
  in_bounds s idx -> in_bounds (swap a b s) (swap a b idx).
Proof.
  intros Ha Hb H. apply in_bounds_nth in H. destruct H as [Hl Hn].
  apply in_bounds_nth. rewrite !swap_length. split; [exact Hl|].
  intros k Hk. rewrite !nth_swap by lia.
  apply Hn. now apply swap_pos_lt.
Qed.

Lemma Forall_pos_swap (a b : nat) (s : list Z) :
  (a < length s)%nat -> (b < length s)%nat ->
  Forall (fun d => 0 < d) s -> Forall (fun d => 0 < d) (swap a b s).
Proof.
  intros Ha Hb H. apply Forall_nth. intros k d Hk.
  rewrite swap_length in Hk.
  rewrite (nth_indep _ d 0) by (now rewrite swap_length).
  rewrite nth_swap by exact Hk.
  rewrite Forall_nth in H. apply H. now apply swap_pos_lt.
Qed.

(** ** Transposition of tensors *)

Lemma nth_map_offsets (g : Z -> Q) (n j : Z) :
  0 <= j < n -> nth (Z.to_nat j) (map g (offsets n)) 0%Q = g j.
Proof.
  intros Hj. unfold offsets. rewrite map_map.
  rewrite (nth_indep _ 0%Q (g (Z.of_nat 0)))
    by (rewrite length_map, length_seq; lia).
  rewrite (map_nth (fun k => g (Z.of_nat k))).
  rewrite seq_nth by lia. simpl. f_equal. lia.
Qed.

Lemma map_nth_offsets (l : list Q) (n : Z) :
  length l = Z.to_nat n ->
  map (fun i => nth (Z.to_nat i) l 0%Q) (offsets n) = l.
Proof.
  intros Hl. apply (nth_ext _ _ 0%Q 0%Q).
  - unfold offsets. now rewrite !length_map, length_seq.
  - intros k Hk. unfold offsets in Hk.
    rewrite !length_map, length_seq in Hk.
    replace k with (Z.to_nat (Z.of_nat k)) at 1 by lia.
    rewrite nth_map_offsets by lia. f_equal. lia.
Qed.

Lemma map_ext_offsets (f g : Z -> Q) (n : Z) :
  (forall i, 0 <= i < n -> f i = g i) ->
  map f (offsets n) = map g (offsets n).
Proof.
  intros H. apply map_ext_in. intros i Hi. apply H.
  unfold offsets in Hi. apply in_map_iff in Hi.
  destruct Hi as [k [<- Hk]]. apply in_seq in Hk. lia.
Qed.

Lemma tensor_transpose_involutive (t t' : Tensor) (a b : nat) :
  Forall (fun d => 0 < d) (shape t) ->
  length (data t) = Z.to_nat (numel (shape t)) ->
  tensor_transpose t a b = Ok t' ->
  tensor_transpose t' a b = Ok t.
Proof.
  intros Hpos Hlen. unfold tensor_transpose.
  destruct ((a <? length (shape t))%nat && (b <? length (shape t))%nat)
    eqn:Hab; [|discriminate].
  intros H. injection H as <-. simpl shape. simpl data.
  rewrite swap_length, Hab.
  apply andb_true_iff in Hab. destruct Hab as [Ha Hb].
  apply Nat.ltb_lt in Ha, Hb.
  rewrite swap_swap by assumption.
  destruct t as [s d]. simpl in *. f_equal. f_equal.
  transitivity (map (fun i => nth (Z.to_nat i) d 0%Q) (offsets (numel s)));
    [|apply map_nth_offsets; exact Hlen].
  apply map_ext_offsets. intros i Hi.
  pose proof (unravel_in_bounds s Hpos i Hi) as Hb1.
  pose proof (in_bounds_swap a b _ _ Ha Hb Hb1) as Hb2.
  rewrite nth_map_offsets by (apply ravel_bounds; exact Hb2).
  rewrite unravel_ravel by exact Hb2.
  assert (Hli : length (unravel s i) = length s).
  { apply in_bounds_nth in Hb1. symmetry. apply Hb1. }
  rewrite swap_swap by (rewrite Hli; assumption).
  now rewrite ravel_unravel.
Qed.

(** ** Sizes of a reshape request *)

Lemma resolve_dims_exact (n : Z) (dims : list Z) :
  Forall (fun d => 0 <= d) dims -> numel dims = n ->
  resolve_dims n dims = Ok dims.
Proof.
  intros Hd Hn. unfold resolve_dims.
  assert (He : existsb (fun d => d <? -1) dims = false).
  { clear -Hd. induction Hd as [|d l Hd _ IH]; simpl; [reflexivity|].
    rewrite IH. replace (d <? -1) with false; [reflexivity|].
    symmetry. apply Z.ltb_ge. lia. }
  assert (Hf : filter (fun d => d =? -1) dims = []).
  { clear -Hd. induction Hd as [|d l Hd _ IH]; simpl; [reflexivity|].
    replace (d =? -1) with false; [exact IH|].
    symmetry. apply Z.eqb_neq. lia. }
  rewrite He, Hf. subst n. now rewrite Z.eqb_refl.
Qed.

Lemma resolve_dims_infer_last (n c : Z) (front : list Z) :
  Forall (fun d => 0 < d) front -> n = numel front * c ->
  resolve_dims n (front ++ [-1]) = Ok (front ++ [c]).
Proof.
  intros Hd Hn. unfold resolve_dims.
  pose proof (numel_pos front Hd) as Hp.
  assert (He : existsb (fun d => d <? -1) (front ++ [-1]) = false).
  { rewrite existsb_app. simpl. rewrite orb_false_r.
    clear -Hd. induction Hd as [|d l Hd _ IH]; simpl; [reflexivity|].
    rewrite IH.
    replace (d <? -1) with false; [reflexivity|].
    symmetry. apply Z.ltb_ge. lia. }
  assert (Hf : filter (fun d => d =? -1) (front ++ [-1]) = [-1]).
  { rewrite filter_app. simpl.
    replace (filter (fun d => d =? -1) front) with (@nil Z); [reflexivity|].
    clear -Hd. induction Hd as [|d l Hd _ IH]; simpl; [reflexivity|].
    replace (d =? -1) with false; [exact IH|].
    symmetry. apply Z.eqb_neq. lia. }
  assert (Hk : filter (fun d => negb (d =? -1)) (front ++ [-1]) = front).
  { rewrite filter_app. simpl. rewrite app_nil_r.
    clear -Hd. induction Hd as [|d l Hd _ IH]; simpl; [reflexivity|].
    replace (d =? -1) with false by (symmetry; apply Z.eqb_neq; lia).
    simpl. now f_equal. }
  assert (Hm : map (fun d => if d =? -1 then c else d) (front ++ [-1])
               = front ++ [c]).
  { rewrite map_app. simpl. f_equal.
    clear -Hd. induction Hd as [|d l Hd _ IH]; simpl; [reflexivity|].
    replace (d =? -1) with false by (symmetry; apply Z.eqb_neq; lia).
    now f_equal. }
  rewrite He, Hf, Hk.
  replace (numel front =? 0) with false by (symmetry; apply Z.eqb_neq; lia).
  subst n. rewrite Z.mul_comm, Z.mod_mul by lia. simpl.
  rewrite Z.div_mul by lia. now rewrite Hm.
Qed.

(** ** Padding to a multiple of the patch size *)


Lemma ceil_div_mul_div (h p : Z) :
  0 < p -> ceil_div h p * p / p = ceil_div h p.
Proof.
  intros Hp. apply Z.div_mul. lia.
Qed.




(** ** Lawful layout operations *)

Lemma positive_sizes_true (h w nh nw : Z) :
  0 < h -> 0 < w -> 0 < nh -> 0 < nw ->
  (0 <? h) && (0 <? w) && (0 <? nh) && (0 <? nw) = true.
Proof.
  intros. repeat (apply andb_true_iff; split); apply Z.ltb_lt; assumption.
Qed.

#[export] Instance TensorLaws_Shape : TensorLaws Shape.
Proof.
  constructor.
  - intros x dims dims' Hr. exists dims'. split; [exact Hr | reflexivity].
  - intros x a b Ha Hb. exists (swap a b x). split; [|reflexivity].
    simpl. unfold shape_transpose.
    apply Nat.ltb_lt in Ha, Hb. simpl in Ha, Hb. now rewrite Ha, Hb.
  - intros x b c h w nh nw Hx Hh Hw Hnh Hnw. simpl in Hx. subst x.
    exists [b; c; nh; nw]. split; [|reflexivity].
    simpl. now rewrite positive_sizes_true.
Qed.

#[export] Instance TensorLaws_Tensor : TensorLaws Tensor.
Proof.
  constructor.
  - intros x dims dims' Hr. exists (mkTensor dims' (data x)).
    split; [|reflexivity]. simpl in *. unfold tensor_reshape. now rewrite Hr.
  - intros x a b Ha Hb. simpl. unfold tensor_transpose.
    apply Nat.ltb_lt in Ha, Hb. simpl in Ha, Hb. rewrite Ha, Hb. simpl.
    eexists. split; reflexivity.
  - intros x b c h w nh nw Hx Hh Hw Hnh Hnw. simpl in *.
    unfold tensor_interpolate. rewrite Hx. simpl fst. simpl snd.
    rewrite positive_sizes_true by assumption.
    eexists. split; reflexivity.
Qed.

(** ** Unfolding and folding: shapes *)

Section Patches.

Context {T : Type} {ops : TensorOps T} {laws : TensorLaws T}.






End Patches.

(** ** Unfolding and folding: elements *)

Lemma tensor_reshape_exact (t : Tensor) (dims : list Z) :
  Forall (fun d => 0 <= d) dims -> numel dims = numel (shape t) ->
  tensor_reshape t dims = Ok (mkTensor dims (data t)).
Proof.
  intros Hd Hn. unfold tensor_reshape.
  now rewrite (resolve_dims_exact _ _ Hd Hn).
Qed.

Lemma tensor_reshape_infer_last (t : Tensor) (front : list Z) (c : Z) :
  Forall (fun d => 0 < d) front -> numel (shape t) = numel front * c ->
  tensor_reshape t (front ++ [-1]) = Ok (mkTensor (front ++ [c]) (data t)).
Proof.
  intros Hd Hn. unfold tensor_reshape.
  now rewrite (resolve_dims_infer_last _ c _ Hd Hn).
Qed.

Lemma tensor_transpose_ok (t : Tensor) (a b : nat) :
  (a < length (shape t))%nat -> (b < length (shape t))%nat ->
  exists t',
    tensor_transpose t a b = Ok t'
    /\ shape t' = swap a b (shape t)
    /\ length (data t') = Z.to_nat (numel (shape t')).
Proof.
  intros Ha Hb. unfold tensor_transpose.
  apply Nat.ltb_lt in Ha, Hb. rewrite Ha, Hb. simpl.
  eexists. split; [reflexivity|]. split; [reflexivity|]. simpl.
  unfold offsets. now rewrite !length_map, length_seq.
Qed.

(** C2: on a tensor whose height and width are multiples of the patch
    height and width, unfolding does not resample, and folding its result
    with the metadata it returned gives back the input tensor itself,
    shape and elements. *)
Theorem folding_unfolding_exact (self : MobileViTBlock) (x : Tensor)
  (B C H W : Z) :
  block_consistent self ->
  shape x = [B; C; H; W] ->
  length (data x) = Z.to_nat (numel (shape x)) ->
  0 < B -> 0 < C -> 0 < H -> 0 < W ->
  0 < patch_h self -> 0 < patch_w self ->
  H mod patch_h self = 0 -> W mod patch_w self = 0 ->
  exists y info,
    unfolding self x = Ok (y, info)
    /\ interpolate info = false
    /\ folding self y info = Ok x.
Proof.
  intros Hpa Hx Hlen HB HC HH HW Hph Hpw Hmh Hmw.
  set (ph := patch_h self) in *. set (pw := patch_w self) in *.
  apply Z.mod_divide in Hmh; [|lia]. destruct Hmh as [nh ->].
  apply Z.mod_divide in Hmw; [|lia]. destruct Hmw as [nw ->].
  assert (Hnh : 0 < nh) by nia. assert (Hnw : 0 < nw) by nia.
  assert (Ech : ceil_div (nh * ph) ph = nh).
  { unfold ceil_div. rewrite <- Z.mul_opp_l, Z.div_mul by lia. ring. }
  assert (Ecw : ceil_div (nw * pw) pw = nw).
  { unfold ceil_div. rewrite <- Z.mul_opp_l, Z.div_mul by lia. ring. }
  (* the tensors unfolding goes through *)
  set (x1 := mkTensor [B * C * nh; ph; nw; pw] (data x)).
  destruct (tensor_transpose_ok x1 1 2) as [x2 [T2 [S2 L2]]];
    [simpl; lia | simpl; lia |].
  cbn in S2.
  set (x3 := mkTensor [B; C; nh * nw; pw * ph] (data x2)).
  destruct (tensor_transpose_ok x3 1 3) as [x4 [T4 [S4 L4]]];
    [simpl; lia | simpl; lia |].
  cbn in S4.
  set (x5 := mkTensor [B * (pw * ph); nh * nw; C] (data x4)).
  assert (N0 : numel (shape x) = B * C * (nh * ph) * (nw * pw))
    by (rewrite Hx; simpl; ring).
  assert (P1 : Forall (fun d => 0 < d) (shape x1))
    by (repeat constructor; nia).
  assert (L1 : length (data x1) = Z.to_nat (numel (shape x1))).
  { simpl. rewrite Hlen. f_equal. rewrite N0. ring. }
  assert (P3 : Forall (fun d => 0 < d) (shape x3))
    by (repeat constructor; nia).
  assert (L3 : length (data x3) = Z.to_nat (numel (shape x3))).
  { simpl. rewrite L2, S2. f_equal. simpl. ring. }
  pose proof (tensor_transpose_involutive x1 x2 1 2 P1 L1 T2) as T2'.
  pose proof (tensor_transpose_involutive x3 x4 1 3 P3 L3 T4) as T4'.
  exists x5, (mkInfo (nh * ph, nw * pw) B false (nh * nw) nw nh).
  split; [|split; [reflexivity|]].
  - unfold unfolding. cbn [t_shape TensorOps_Tensor]. rewrite Hx. fold ph pw.
    replace (ph =? 0) with false by (symmetry; apply Z.eqb_neq; lia).
    replace (pw =? 0) with false by (symmetry; apply Z.eqb_neq; lia).
    simpl orb. cbv iota. rewrite Ech, Ecw, !Z.eqb_refl. cbn [bind].
    rewrite !Z.div_mul by lia.
    cbn [t_reshape t_transpose TensorOps_Tensor negb orb bind].
    rewrite (tensor_reshape_exact x [B * C * nh; ph; nw; pw])
      by (try (repeat constructor; nia); rewrite N0; simpl; ring).
    cbn [bind]. fold x1. rewrite T2. cbn [bind].
    rewrite (tensor_reshape_exact x2 [B; C; nh * nw; pw * ph])
      by (try (repeat constructor; nia); rewrite S2; simpl; ring).
    cbn [bind]. fold x3. rewrite T4. cbn [bind].
    change [B * (pw * ph); nh * nw; -1]
      with ([B * (pw * ph); nh * nw] ++ [-1]).
    rewrite (tensor_reshape_infer_last x4 [B * (pw * ph); nh * nw] C)
      by (try (repeat constructor; nia); rewrite S4; simpl; ring).
    reflexivity.
  - unfold folding, x5.
    cbn [t_shape TensorOps_Tensor shape length Nat.eqb py_assert bind].
    cbn [batch_size total_patches num_patches_h num_patches_w interpolate
         orig_size].
    rewrite Hpa. fold ph pw. cbn [t_reshape t_transpose TensorOps_Tensor].
    change [B; pw * ph; nh * nw; -1] with ([B; pw * ph; nh * nw] ++ [-1]).
    rewrite (tensor_reshape_infer_last _ [B; pw * ph; nh * nw] C)
      by (try (repeat constructor; nia); simpl; ring).
    cbn [bind app data].
    replace (mkTensor [B; pw * ph; nh * nw; C] (data x4)) with x4
      by (destruct x4; simpl in S4; now subst).
    cbn [t_shape t_reshape t_transpose TensorOps_Tensor].
    rewrite S4, T4'. cbn [bind].
    rewrite (tensor_reshape_exact x3 [B * C * nh; nw; ph; pw])
      by (try (repeat constructor; nia); simpl; ring).
    cbn [bind]. change (data x3) with (data x2).
    replace (mkTensor [B * C * nh; nw; ph; pw] (data x2)) with x2
      by (destruct x2; simpl in S2; now subst).
    rewrite T2'. cbn [bind].
    rewrite (tensor_reshape_exact x1 [B; C; nh * ph; nw * pw])
      by (try (repeat constructor; nia); simpl; ring).
    simpl. f_equal. destruct x. simpl in *. now subst.
Qed.


Lemma MobileViTBlock_init_inv (in_channels transformer_dim : Z)
  (ffn : option Z) (n_transformer_blocks head_dim : Z)
  (attn_dropout dropout ffn_dropout : num) (patch_h' patch_w' conv_ksize' : Z)
  (self : MobileViTBlock) :
  MobileViTBlock_init in_channels transformer_dim ffn n_transformer_blocks
    head_dim attn_dropout dropout ffn_dropout patch_h' patch_w' conv_ksize'
  = Ok self ->
  head_dim <> 0
  /\ transformer_dim mod head_dim = 0
  /\ self
     = mkMobileViTBlock
         [("conv_3x3"%string,
           ConvLayer_init in_channels in_channels (SizeInt conv_ksize')
                          (SizeInt 1) 1 false true true);
          ("conv_1x1"%string,
           ConvLayer_init in_channels transformer_dim (SizeInt 1) (SizeInt 1)
                          1 false false false)]
         (repeat (GEncoder (mkTransformerEncoder transformer_dim ffn
                              (transformer_dim / head_dim) attn_dropout
                              dropout ffn_dropout))
                 (Z.to_nat n_transformer_blocks)
          ++ [GNorm (LayerNorm transformer_dim)])
         (ConvLayer_init transformer_dim in_channels (SizeInt 1) (SizeInt 1) 1
                         false true true)
         (ConvLayer_init (2 * in_channels) in_channels (SizeInt conv_ksize')
                         (SizeInt 1) 1 false true true)
         patch_h' patch_w' (patch_w' * patch_h') in_channels transformer_dim
         (transformer_dim / head_dim) ffn dropout attn_dropout ffn_dropout
         n_transformer_blocks conv_ksize'.
Proof.
  rewrite MobileViTBlock_init_eq. intros Hs.
  destruct (ConvLayer_new in_channels in_channels _ _ _ _ _ _) as [c1|] eqn:E1;
    cbn [bind] in Hs; [|discriminate Hs].
  destruct (ConvLayer_new in_channels transformer_dim _ _ _ _ _ _)
    as [c2|] eqn:E2; cbn [bind] in Hs; [|discriminate Hs].
  destruct (ConvLayer_new transformer_dim in_channels _ _ _ _ _ _)
    as [c3|] eqn:E3; cbn [bind] in Hs; [|discriminate Hs].
  destruct (ConvLayer_new (2 * in_channels) in_channels _ _ _ _ _ _)
    as [c4|] eqn:E4; cbn [bind] in Hs; [|discriminate Hs].
  apply ConvLayer_new_inv in E1, E2, E3, E4. subst c1 c2 c3 c4.
  unfold py_mod, py_floordiv in Hs.
  destruct (head_dim =? 0) eqn:Eh; [discriminate|]. cbn [bind] in Hs.
  destruct (transformer_dim mod head_dim =? 0) eqn:Em; [|discriminate].
  cbn [py_assert bind] in Hs.
  destruct (prim_new (LayerNorm transformer_dim)) as [norm|] eqn:En;
    cbn [bind] in Hs; [|discriminate Hs].
  apply prim_new_inv in En. subst norm. injection Hs as <-.
  apply Z.eqb_neq in Eh. apply Z.eqb_eq in Em. auto.
Qed.

(** A block is built for non-negative widths, a non-negative kernel and an
    embedding dimension that is a multiple of the head dimension. *)
Lemma MobileViTBlock_init_ok (cin td : Z) (ffn : option Z) (nb hd : Z)
  (ad dr fd : num) (ph pw k : Z) :
  0 <= cin -> 0 <= td -> 0 <= k ->
  hd <> 0 -> td mod hd = 0 ->
  exists m, MobileViTBlock_init cin td ffn nb hd ad dr fd ph pw k = Ok m.
Proof.
  intros Hc Ht Hk Hh Hm. rewrite MobileViTBlock_init_eq.
  rewrite !ConvLayer_new_ungrouped by lia. cbn [bind].
  unfold py_mod, py_floordiv.
  apply Z.eqb_neq in Hh. rewrite Hh. cbn [bind]. rewrite Hm.
  cbn [Z.eqb py_assert bind prim_new].
  replace (td <? 0) with false by (symmetry; apply Z.ltb_ge; lia).
  cbn [bind]. eexists. reflexivity.
Qed.


Section Resampled.

Context {T : Type} {ops : TensorOps T} {laws : TensorLaws T}.


End Resampled.


(** The resampled round trip does not give the elements back: the first
    element of the 7 by 7 image, 0, comes back as 13/28. *)
Lemma folding_unfolding_resampled_lossy :
  exists self y info z,
    MobileViTBlock_init 3 8 None 1 4 (PyInt 0) (PyInt 0) (PyInt 0) 4 4 3
    = Ok self
    /\ unfolding self image_7x7 = Ok (y, info)
    /\ folding self y info = Ok z
    /\ shape z = shape image_7x7
    /\ (nth 0 (data image_7x7) 0 == 0)%Q
    /\ (nth 0 (data z) 0 == 13 # 28)%Q.
Proof.
  do 4 eexists.
  split; [reflexivity|].
  split; [vm_compute; reflexivity|].
  split; [vm_compute; reflexivity|].
  split; [reflexivity|]. split; vm_compute; reflexivity.
Qed.

(** ** Shapes through the layers *)

Lemma shape_eqb_refl (s : Shape) : shape_eqb s s = true.
Proof.
  induction s as [|d s IH]; simpl; [reflexivity|].
  now rewrite Z.eqb_refl, IH.
Qed.

Lemma shape_eqb_eq (a b : Shape) : shape_eqb a b = true -> a = b.
Proof.
  revert b. induction a as [|x a IH]; intros [|y b] Hab; simpl in Hab;
    try discriminate; [reflexivity|].
  apply andb_true_iff in Hab. destruct Hab as [Hx Ha].
  apply Z.eqb_eq in Hx. f_equal; [exact Hx | now apply IH].
Qed.

Lemma trunc_half_even (j : Z) : 0 <= j -> trunc (inject_Z (2 * j) / 2) = j.
Proof.
  intros Hj.
  assert (He : (inject_Z (2 * j) / 2 == inject_Z j)%Q).
  { rewrite inject_Z_mult. change (inject_Z 2) with 2%Q. field. }
  assert (Hp : (0 <= inject_Z j)%Q)
    by (change 0%Q with (inject_Z 0); rewrite <- Zle_Qle; exact Hj).
  rewrite trunc_nonneg by (rewrite He; exact Hp).
  rewrite He. apply Qfloor_Z.
Qed.

(** A [ConvLayer] with a square kernel [k], stride [s] and the padding the
    constructor derives from [k]; its normalisation wants more than one
    value per channel. *)
Lemma ConvLayer_forward_shape (cin cout k s g pad b h w : Z)
  (bias use_norm use_act : bool) :
  trunc (inject_Z (k - 1) / 2) = pad ->
  0 < k -> 0 < s -> 0 <= pad ->
  0 < conv_out_size h k s pad -> 0 < conv_out_size w k s pad ->
  (use_norm = true ->
   b * conv_out_size h k s pad * conv_out_size w k s pad <> 1) ->
  ConvLayer_forward (T := Shape)
    (ConvLayer_init cin cout (SizeInt k) (SizeInt s) g bias use_norm use_act)
    [b; cin; h; w]
  = Ok [b; cout; conv_out_size h k s pad; conv_out_size w k s pad].
Proof.
  intros Hpad Hk Hs Hp Hh Hw Hn.
  unfold ConvLayer_forward, ConvLayer_init. cbn [as_pair fst snd].
  rewrite Hpad.
  assert (Hc : prim_shape (Conv2d cin cout (k, k) (s, s) (pad, pad) g bias)
                 [b; cin; h; w]
               = Ok [b; cout; conv_out_size h k s pad;
                     conv_out_size w k s pad]).
  { cbn [prim_shape fst snd]. rewrite Z.eqb_refl.
    apply Z.ltb_lt in Hk, Hs, Hh, Hw. apply Z.leb_le in Hp.
    now rewrite Hk, Hs, Hp, Hh, Hw. }
  destruct use_norm, use_act; cbn [app block sequential run_prim Engine_Shape];
    rewrite Hc; cbn [bind prim_shape];
    try (replace (b * conv_out_size h k s pad * conv_out_size w k s pad =? 1)
           with false by (symmetry; apply Z.eqb_neq; auto));
    rewrite ?Z.eqb_refl; reflexivity.
Qed.

Lemma conv_out_size_same (h j : Z) :
  conv_out_size h (2 * j + 1) 1 j = h.
Proof.
  unfold conv_out_size. rewrite Z.div_1_r. lia.
Qed.

(** A [ConvLayer] with an odd kernel and stride 1 keeps the spatial size. *)
Lemma ConvLayer_forward_same (cin cout j g b h w : Z)
  (bias use_norm use_act : bool) :
  0 <= j -> 0 < h -> 0 < w ->
  (use_norm = true -> b * h * w <> 1) ->
  ConvLayer_forward (T := Shape)
    (ConvLayer_init cin cout (SizeInt (2 * j + 1)) (SizeInt 1) g bias
                    use_norm use_act)
    [b; cin; h; w]
  = Ok [b; cout; h; w].
Proof.
  intros Hj Hh Hw Hn.
  rewrite (ConvLayer_forward_shape cin cout (2 * j + 1) 1 g j);
    rewrite ?conv_out_size_same; try lia; try assumption; [reflexivity|].
  replace (2 * j + 1 - 1) with (2 * j) by lia. now apply trunc_half_even.
Qed.

(** Sizes that leave a normalisation more than one value per channel. *)
Lemma product_grows (b h w h' w' : Z) :
  0 < h' <= h -> 0 < w' <= w -> 1 < b * h' * w' -> 1 < b * h * w.
Proof.
  intros Hh Hw Hp.
  assert (Hb : 0 < b) by nia.
  assert (H1 : b * h' * w' <= b * h * w').
  { apply Z.mul_le_mono_nonneg_r; [lia|].
    apply Z.mul_le_mono_nonneg_l; lia. }
  assert (H2 : b * h * w' <= b * h * w).
  { apply Z.mul_le_mono_nonneg_l; [|lia]. apply Z.mul_nonneg_nonneg; lia. }
  lia.
Qed.

Ltac values :=
  match goal with
  | |- _ = true -> _ => intros _
  | _ => idtac
  end; (assumption || lia).


(** ** The hybrid block *)


(** *** Whatever the block returns has the shape of its input *)

Ltac bind_inv H :=
  repeat match type of H with
         | bind ?m _ = Ok _ =>
             let E := fresh "E" in
             destruct m eqn:E; cbn [bind] in H; [|discriminate H]
         end.

(** What a [ConvLayer] that returns was given: a batch of feature maps,
    or, when it has no normalisation, possibly one feature map without the
    batch axis. *)
Lemma ConvLayer_forward_cases (cin cout k s g : Z)
  (bias use_norm use_act : bool) (x y : Shape) :
  ConvLayer_forward (T := Shape)
    (ConvLayer_init cin cout (SizeInt k) (SizeInt s) g bias use_norm use_act)
    x = Ok y ->
  let pad := trunc (inject_Z (k - 1) / 2) in
  (exists b h w,
      x = [b; cin; h; w]
      /\ y = [b; cout; conv_out_size h k s pad; conv_out_size w k s pad]
      /\ 0 < conv_out_size h k s pad /\ 0 < conv_out_size w k s pad
      /\ (use_norm = true ->
          b * conv_out_size h k s pad * conv_out_size w k s pad <> 1))
  \/ (use_norm = false
      /\ exists h w,
           x = [cin; h; w]
           /\ y = [cout; conv_out_size h k s pad; conv_out_size w k s pad]
           /\ 0 < conv_out_size h k s pad /\ 0 < conv_out_size w k s pad).
Proof.
  intros Hf. cbv zeta.
  unfold ConvLayer_forward, ConvLayer_init in Hf. cbn [as_pair fst snd] in Hf.
  set (pad := trunc (inject_Z (k - 1) / 2)) in *.
  assert (Hok : exists z,
             prim_shape (Conv2d cin cout (k, k) (s, s) (pad, pad) g bias) x
             = Ok z
             /\ sequential (T := Shape) run_prim
                  ((if use_norm then [("norm"%string, BatchNorm2d cout)]
                    else [])
                   ++ (if use_act then [("act"%string, SiLU)] else [])) z
                = Ok y).
  { destruct use_norm, use_act;
      cbn [app block sequential run_prim Engine_Shape] in Hf |- *;
      (destruct (prim_shape _ x) as [z|]; cbn [bind] in Hf;
       [|discriminate Hf]); exists z; (split; [reflexivity | exact Hf]). }
  destruct Hok as [z [Hz Hrest]]. cbn [prim_shape fst snd] in Hz.
  destruct x as [|b [|c [|h [|w [|]]]]]; try discriminate Hz.
  - (* one feature map *)
    match type of Hz with
    | (if ?cond then _ else _) = _ => destruct cond eqn:Ec; [|discriminate Hz]
    end.
    injection Hz as <-.
    repeat (apply andb_true_iff in Ec; destruct Ec as [Ec ?]).
    apply Z.eqb_eq in Ec. subst b.
    right. destruct use_norm.
    + exfalso. cbn [app sequential run_prim Engine_Shape prim_shape bind]
        in Hrest. discriminate Hrest.
    + split; [reflexivity|]. exists c, h.
      split; [reflexivity|].
      split; [|split; apply Z.ltb_lt; assumption].
      destruct use_act;
        cbn [app sequential run_prim Engine_Shape prim_shape bind] in Hrest;
        congruence.
  - (* a batch *)
    match type of Hz with
    | (if ?cond then _ else _) = _ => destruct cond eqn:Ec; [|discriminate Hz]
    end.
    injection Hz as <-.
    repeat (apply andb_true_iff in Ec; destruct Ec as [Ec ?]).
    apply Z.eqb_eq in Ec. subst c.
    left. exists b, h, w. split; [reflexivity|].
    assert (Hy : y = [b; cout; conv_out_size h k s pad;
                      conv_out_size w k s pad]
                 /\ (use_norm = true ->
                     b * conv_out_size h k s pad * conv_out_size w k s pad
                     <> 1)).
    { destruct use_norm, use_act;
        cbn [app sequential run_prim Engine_Shape prim_shape bind] in Hrest;
        try (destruct (_ * _ * _ =? 1) eqn:E1; [discriminate Hrest|];
             apply Z.eqb_neq in E1;
             rewrite Z.eqb_refl in Hrest; cbn [bind] in Hrest);
        (split; [congruence|]); intros Hn; (assumption || discriminate Hn). }
    destruct Hy as [-> Hn].
    split; [reflexivity|].
    split; [apply Z.ltb_lt; assumption|].
    split; [apply Z.ltb_lt; assumption | exact Hn].
Qed.

Lemma ConvLayer_forward_inv (cin cout k s g : Z)
  (bias use_norm use_act : bool) (x y : Shape) :
  use_norm = true \/ length x = 4%nat ->
  ConvLayer_forward (T := Shape)
    (ConvLayer_init cin cout (SizeInt k) (SizeInt s) g bias use_norm use_act)
    x = Ok y ->
  exists b h w,
    x = [b; cin; h; w]
    /\ y = [b; cout;
            conv_out_size h k s (trunc (inject_Z (k - 1) / 2));
            conv_out_size w k s (trunc (inject_Z (k - 1) / 2))]
    /\ 0 < conv_out_size h k s (trunc (inject_Z (k - 1) / 2))
    /\ 0 < conv_out_size w k s (trunc (inject_Z (k - 1) / 2)).
Proof.
  intros Hx Hf. apply ConvLayer_forward_cases in Hf. cbv zeta in Hf.
  destruct Hf as [[b [h [w [-> [-> [Hh [Hw _]]]]]]]
                 | [Hn [h [w [-> _]]]]].
  - exists b, h, w. auto.
  - destruct Hx as [Hx|Hx]; [congruence | discriminate Hx].
Qed.

Lemma resolve_dims_keep (n : Z) (dims dims' : list Z) :
  resolve_dims n dims = Ok dims' ->
  length dims' = length dims
  /\ forall k, nth k dims 0 <> -1 -> nth k dims' 0 = nth k dims 0.
Proof.
  unfold resolve_dims.
  destruct (existsb (fun d => d <? -1) dims); [discriminate|].
  destruct (filter (fun d => d =? -1) dims) as [|m [|m' l]];
    [| |discriminate].
  - destruct (numel dims =? n); [|discriminate].
    intros Hr. injection Hr as <-. auto.
  - set (known := numel (filter (fun d => negb (d =? -1)) dims)).
    destruct (known =? 0); [discriminate|].
    destruct (n mod known =? 0); [|discriminate].
    intros Hr. injection Hr as <-. split; [apply length_map|].
    intros k Hk.
    change 0 with ((fun d => if d =? -1 then n / known else d) 0) at 1.
    rewrite map_nth. destruct (nth k dims 0 =? -1) eqn:E; [|reflexivity].
    apply Z.eqb_eq in E. contradiction.
Qed.

Lemma unfolding_inv (self : MobileViTBlock) (b c h w : Z) (y : Shape)
  (info : info_dict) :
  unfolding (T := Shape) self [b; c; h; w] = Ok (y, info) ->
  patch_h self <> 0 /\ patch_w self <> 0
  /\ orig_size info = (h, w)
  /\ interpolate info
     = negb (ceil_div w (patch_w self) * patch_w self =? w)
       || negb (ceil_div h (patch_h self) * patch_h self =? h)
  /\ num_patches_h info = ceil_div h (patch_h self)
  /\ num_patches_w info = ceil_div w (patch_w self).
Proof.
  unfold unfolding. cbn [t_shape TensorOps_Shape].
  destruct (patch_h self =? 0) eqn:Eh; [discriminate|].
  destruct (patch_w self =? 0) eqn:Ew; [discriminate|].
  cbn [orb]. apply Z.eqb_neq in Eh, Ew. intros Hu.
  bind_inv Hu. injection Hu as _ <-.
  cbn [orig_size interpolate num_patches_h num_patches_w].
  rewrite !Z.div_mul by assumption. repeat split; assumption.
Qed.

Lemma folding_inv (self : MobileViTBlock) (x z : Shape) (info : info_dict)
  (h w : Z) :
  folding (T := Shape) self x info = Ok z ->
  (if interpolate info then orig_size info
   else (num_patches_h info * patch_h self,
         num_patches_w info * patch_w self)) = (h, w) ->
  0 < h -> 0 < w ->
  exists b c, z = [b; c; h; w].
Proof.
  unfold folding. intros Hf Hsz Hh Hw.
  destruct (py_assert _); cbn [bind] in Hf; [|discriminate Hf].
  destruct (t_reshape x _) as [x1|] eqn:E1; cbn [bind] in Hf;
    [|discriminate Hf].
  cbn [t_shape TensorOps_Shape] in Hf.
  destruct x1 as [|bs [|px [|np [|ch [|]]]]]; try discriminate Hf.
  destruct (t_transpose _ 1%nat 3%nat) as [x2|]; cbn [bind] in Hf;
    [|discriminate Hf].
  destruct (t_reshape x2 _) as [x3|]; cbn [bind] in Hf; [|discriminate Hf].
  destruct (t_transpose x3 1%nat 2%nat) as [x4|]; cbn [bind] in Hf;
    [|discriminate Hf].
  destruct (t_reshape x4 _) as [x5|] eqn:E5; cbn [bind] in Hf;
    [|discriminate Hf].
  destruct (interpolate info) eqn:Ei.
  - rewrite Hsz in Hf. cbn [t_interpolate TensorOps_Shape] in Hf.
    unfold shape_interpolate in Hf.
    destruct x5 as [|b' [|c' [|h' [|w' [|]]]]]; try discriminate Hf.
    destruct (_ && _); [|discriminate Hf]. injection Hf as <-.
    eexists. eexists. reflexivity.
  - injection Hf as <-. injection Hsz as <- <-.
    cbn [t_reshape TensorOps_Shape] in E5. unfold shape_reshape in E5.
    apply resolve_dims_keep in E5. destruct E5 as [Hl Hn].
    destruct x5 as [|b' [|c' [|h' [|w' [|]]]]]; try discriminate Hl.
    pose proof (Hn 2%nat) as H2. pose proof (Hn 3%nat) as H3.
    cbn [nth] in H2, H3. rewrite H2, H3 by lia.
    eexists. eexists. reflexivity.
Qed.

Lemma conv_out_size_pointwise (h : Z) :
  conv_out_size h 1 1 (trunc (inject_Z (1 - 1) / 2)) = h.
Proof.
  change (trunc (inject_Z (1 - 1) / 2)) with 0.
  unfold conv_out_size. rewrite Z.div_1_r. lia.
Qed.

Ltac bind_step H x E :=
  match type of H with
  | bind ?m _ = Ok _ =>
      destruct m as [x|] eqn:E; cbn [bind] in H; [|discriminate H]
  end.

Lemma MobileViTBlock_forward_preserves (cin td : Z) (ffn : option Z)
  (nb hd : Z) (ad dr fd : num) (ph pw k : Z) (self : MobileViTBlock)
  (s s' : Shape) :
  MobileViTBlock_init cin td ffn nb hd ad dr fd ph pw k = Ok self ->
  MobileViTBlock_forward (T := Shape) self s = Ok s' ->
  s' = s.
Proof.
  intros Hinit Hf.
  apply MobileViTBlock_init_inv in Hinit. destruct Hinit as [_ [_ Hself]].
  unfold MobileViTBlock_forward in Hf.
  (* local representation *)
  bind_step Hf fm L.
  rewrite Hself in L. cbn [local_rep sequential] in L.
  bind_step L fm0 L0.
  apply ConvLayer_forward_inv in L0; [|auto].
  destruct L0 as [b [h [w [-> [-> [Hh1 Hw1]]]]]].
  set (pad := trunc (inject_Z (k - 1) / 2)) in *.
  set (h1 := conv_out_size h k 1 pad) in *.
  set (w1 := conv_out_size w k 1 pad) in *.
  bind_step L fm1 L1.
  injection L as <-.
  apply ConvLayer_forward_inv in L1; [|auto].
  destruct L1 as [b' [h' [w' [Hx [-> _]]]]].
  injection Hx as <- <- <-. rewrite !conv_out_size_pointwise in Hf.
  (* patches *)
  cbn [engine_ops Engine_Shape] in Hf.
  bind_step Hf yi U. destruct yi as [y info].
  apply unfolding_inv in U.
  destruct U as [Hph [Hpw [Hos [Hip [Hnh Hnw]]]]].
  bind_step Hf y' G. bind_step Hf fm2 F.
  apply (folding_inv self y' fm2 info h1 w1) in F; try assumption.
  2:{ rewrite Hos, Hnh, Hnw. destruct (interpolate info); [reflexivity|].
      symmetry in Hip. apply orb_false_iff in Hip. destruct Hip as [E1 E2].
      apply negb_false_iff in E1, E2. apply Z.eqb_eq in E1, E2.
      now rewrite E1, E2. }
  destruct F as [b2 [c2 ->]].
  (* projection and fusion *)
  bind_step Hf fm3 P.
  rewrite Hself in P. cbn [conv_proj] in P.
  apply ConvLayer_forward_inv in P; [|auto].
  destruct P as [b3 [h3 [w3 [Hx [-> _]]]]].
  injection Hx as <- -> <- <-. rewrite !conv_out_size_pointwise in Hf.
  bind_step Hf c K.
  cbn in K.
  match type of K with
  | (if ?cond then _ else _) = _ =>
      destruct cond eqn:Ek; [|discriminate K]
  end.
  injection K as <-.
  repeat (apply andb_true_iff in Ek; destruct Ek as [? Ek]).
  repeat match goal with
         | E : (_ =? _) = true |- _ => apply Z.eqb_eq in E
         end.
  rewrite Hself in Hf. cbn [fusion] in Hf.
  apply ConvLayer_forward_inv in Hf; [|auto].
  destruct Hf as [b4 [h4 [w4 [Hx [-> _]]]]].
  injection Hx as <- _ <- <-. fold pad h1 w1. congruence.
Qed.

(** ** Inverted-residual units and stages on shapes *)

Lemma conv_out_size_3_pos (h s : Z) :
  0 < h -> 0 < s -> 0 < conv_out_size h 3 s 1.
Proof.
  intros Hh Hs. unfold conv_out_size.
  assert (0 <= (h + 2 * 1 - 3) / s) by (apply Z.div_pos; lia). lia.
Qed.

Lemma conv_out_size_3_stride1 (h : Z) : conv_out_size h 3 1 1 = h.
Proof.
  unfold conv_out_size. rewrite Z.div_1_r. lia.
Qed.

Lemma conv_out_size_3_le (h s : Z) :
  0 < h -> 0 < s -> conv_out_size h 3 s 1 <= h.
Proof.
  intros Hh Hs. unfold conv_out_size.
  replace (h + 2 * 1 - 3) with (h - 1) by ring.
  assert ((h - 1) / s <= h - 1) by (apply Z.div_le_upper_bound; nia). lia.
Qed.

Lemma InvertedResidual_forward_shape (cin out stride : Z) (e : num)
  (skip : bool) (u : InvertedResidual) (B h w : Z) :
  InvertedResidual_init cin (Some out) stride e skip = Ok u ->
  neb e (PyInt 1) = true ->
  0 < h -> 0 < w ->
  1 < B * conv_out_size h 3 stride 1 * conv_out_size w 3 stride 1 ->
  InvertedResidual_forward (T := Shape) u [B; cin; h; w]
  = Ok [B; out; conv_out_size h 3 stride 1; conv_out_size w 3 stride 1].
Proof.
  intros Hinit He Hh Hw Hmany.
  destruct (InvertedResidual_init_record _ _ _ _ _ _ Hinit)
    as [hd [o [_ [_ [_ [Ho [Hs ->]]]]]]].
  injection Ho as <-. rewrite He.
  assert (Hsp : 0 < stride) by lia.
  pose proof (conv_out_size_3_pos h stride Hh Hsp) as Hh'.
  pose proof (conv_out_size_3_pos w stride Hw Hsp) as Hw'.
  pose proof (conv_out_size_3_le h stride Hh Hsp) as Hhle.
  pose proof (conv_out_size_3_le w stride Hw Hsp) as Hwle.
  assert (Hin : 1 < B * h * w)
    by (apply (product_grows B h w (conv_out_size h 3 stride 1)
                 (conv_out_size w 3 stride 1)); (assumption || lia)).
  assert (Hp : sequential (T := Shape) ConvLayer_forward
                 [("exp_1x1"%string,
                   ConvLayer_init cin hd (SizeInt 1) (SizeInt 1) 1
                                  false true true);
                  ("conv_3x3"%string,
                   ConvLayer_init hd hd (SizeInt 3) (SizeInt stride) hd
                                  false true true);
                  ("red_1x1"%string,
                   ConvLayer_init hd out (SizeInt 1) (SizeInt 1) 1
                                  false true false)]
                 [B; cin; h; w]
               = Ok [B; out; conv_out_size h 3 stride 1;
                     conv_out_size w 3 stride 1]).
  { cbn [app sequential].
    replace (SizeInt 1) with (SizeInt (2 * 0 + 1)) by reflexivity.
    rewrite ConvLayer_forward_same by values. cbn [bind].
    rewrite (ConvLayer_forward_shape hd hd 3 stride hd 1)
      by (reflexivity || values).
    cbn [bind]. rewrite ConvLayer_forward_same by values.
    reflexivity. }
  unfold InvertedResidual_forward.
  cbn [use_res_connect ir_block app]. rewrite Hp.
  destruct ((stride =? 1) && (cin =? out) && skip) eqn:Ec; [|reflexivity].
  apply andb_true_iff in Ec. destruct Ec as [Ec _].
  apply andb_true_iff in Ec. destruct Ec as [E1 E2].
  apply Z.eqb_eq in E1, E2. subst stride out.
  cbn [bind]. rewrite !conv_out_size_3_stride1.
  cbn [t_add Engine_Shape]. unfold shape_add.
  now rewrite shape_eqb_refl.
Qed.










(** ** The network *)










(** ** Hybrid stages *)


Lemma make_mit_layer_no_downsampling (input_channel : Z) (cfg : StageConfig)
  (td : Z) :
  get (cfg_stride cfg) 1 <> 2 ->
  cfg_transformer_channels cfg = Some td ->
  0 <= input_channel -> 0 <= td ->
  get (cfg_num_heads cfg) 4 <> 0 ->
  td / get (cfg_num_heads cfg) 4 <> 0 ->
  td mod (td / get (cfg_num_heads cfg) 4) = 0 ->
  exists m, _make_mit_layer input_channel cfg = Ok ([SMobileViT m],
                                                     input_channel).
Proof.
  intros Hs Htd Hin Hpos Hnh Hhd Hmod. unfold _make_mit_layer.
  replace (get (cfg_stride cfg) 1 =? 2) with false
    by (symmetry; now apply Z.eqb_neq).
  rewrite Htd. cbn [bind getitem]. unfold py_floordiv, py_mod.
  replace (get (cfg_num_heads cfg) 4 =? 0) with false
    by (symmetry; now apply Z.eqb_neq).
  cbn [bind].
  replace (td / get (cfg_num_heads cfg) 4 =? 0) with false
    by (symmetry; now apply Z.eqb_neq).
  cbn [bind]. rewrite Hmod. cbn [negb Z.eqb].
  match goal with
  | |- context [MobileViTBlock_init ?a ?b ?c ?d ?e ?f ?g ?h ?i ?j ?k] =>
      destruct (MobileViTBlock_init_ok a b c d e f g h i j k Hin Hpos
                  ltac:(lia) Hhd Hmod)
        as [m Hm]
  end.
  rewrite Hm. exists m. reflexivity.
Qed.

(** The stage builder refuses a transformer width that is not a multiple of
    the head width it derives from the head count. *)
Lemma make_mit_layer_indivisible (input_channel : Z) (cfg : StageConfig)
  (td : Z) :
  get (cfg_stride cfg) 1 <> 2 ->
  cfg_transformer_channels cfg = Some td ->
  get (cfg_num_heads cfg) 4 <> 0 ->
  td / get (cfg_num_heads cfg) 4 <> 0 ->
  td mod (td / get (cfg_num_heads cfg) 4) <> 0 ->
  _make_mit_layer input_channel cfg = Err ValueError.
Proof.
  intros Hs Htd Hnh Hhd Hmod. unfold _make_mit_layer.
  replace (get (cfg_stride cfg) 1 =? 2) with false
    by (symmetry; now apply Z.eqb_neq).
  rewrite Htd. cbn [bind getitem]. unfold py_floordiv, py_mod.
  replace (get (cfg_num_heads cfg) 4 =? 0) with false
    by (symmetry; now apply Z.eqb_neq).
  cbn [bind].
  replace (td / get (cfg_num_heads cfg) 4 =? 0) with false
    by (symmetry; now apply Z.eqb_neq).
  cbn [bind].
  replace (td mod (td / get (cfg_num_heads cfg) 4) =? 0) with false
    by (symmetry; now apply Z.eqb_neq).
  reflexivity.
Qed.


(** ** Instances on concrete inputs *)

Lemma make_divisible_correct_witness :
  exists r,
    make_divisible (PyInt 44) 8 (option_map PyInt None) = Ok (PyInt r)
    /\ (inject_Z r
        == make_divisible_spec (inject_Z 44) 8
             (minimum_of 8 (option_map PyInt None)))%Q
    /\ (minimum_of 8 (option_map PyInt None) <= inject_Z r)%Q
    /\ 9 * 44 <= 10 * r
    /\ ((exists m,
            0 < m
            /\ (minimum_of 8 (option_map PyInt None) == inject_Z (m * 8))%Q) ->
        exists k, 0 < k /\ r = k * 8).
Proof.
  apply (make_divisible_correct 44 8 None); lia.
Defined.

(** With an explicit minimum that is not a multiple of the divisor the
    result need not be one: [make_divisible(0, 8, 3)] is 3. *)
Lemma make_divisible_minimum_not_multiple :
  exists r,
    make_divisible (PyInt 0) 8 (Some (PyInt 3)) = Ok r
    /\ ~ (exists k, (to_Q r == inject_Z (k * 8))%Q).
Proof.
  exists (PyInt 3). split; [reflexivity|].
  intros [k Hk]. change (to_Q (PyInt 3)) with (inject_Z 3) in Hk.
  apply (proj1 (inject_Z_injective 3 (k * 8))) in Hk. lia.
Qed.



Lemma folding_unfolding_exact_witness :
  exists self,
    MobileViTBlock_init 3 8 None 1 4 (PyInt 0) (PyInt 0) (PyInt 0) 4 4 3
    = Ok self
    /\ exists y info,
         unfolding self image_8x8 = Ok (y, info)
         /\ interpolate info = false
         /\ folding self y info = Ok image_8x8.
Proof.
  eexists. split; [reflexivity|].
  match goal with
  | |- exists y info, unfolding ?self _ = _ /\ _ =>
      exact (folding_unfolding_exact self image_8x8 2 3 8 8
               eq_refl eq_refl eq_refl eq_refl eq_refl eq_refl eq_refl
               eq_refl eq_refl eq_refl eq_refl)
  end.
Defined.




(** * Further properties of the code *)

(** ** [ConvLayer] *)

Lemma trunc_half (n : Z) : 0 <= n -> trunc (inject_Z n / 2) = n / 2.
Proof.
  intros Hn. rewrite trunc_nonneg.
  - change 2%Q with (inject_Z 2). symmetry. apply Zdiv_Qdiv.
  - assert (Hq : (0 <= inject_Z n)%Q)
      by (change 0%Q with (inject_Z 0); rewrite <- Zle_Qle; exact Hn).
    unfold Qdiv. change (/ 2)%Q with (1 # 2)%Q. lra.
Qed.

(** X1: a layer built with positive widths and stride 1: the padding the
    constructor derives from the kernel keeps the height and width for an
    odd kernel and loses one row and one column for an even kernel, on a
    batch that leaves the normalisation, if there is one, more than one
    value per channel. *)
Theorem ConvLayer_stride1_spatial (cin cout k g B H W : Z)
  (bias use_norm use_act : bool) (layer : ConvLayer) :
  ConvLayer_new cin cout (SizeInt k) (SizeInt 1) g bias use_norm use_act
  = Ok layer ->
  0 < cin -> 0 < cout -> 0 < k -> 0 < B ->
  (if Z.even k then 1 else 0) < H ->
  (if Z.even k then 1 else 0) < W ->
  (use_norm = true ->
   1 < B * (H - (if Z.even k then 1 else 0))
       * (W - (if Z.even k then 1 else 0))) ->
  ConvLayer_forward (T := Shape) layer [B; cin; H; W]
  = Ok [B; cout; H - (if Z.even k then 1 else 0);
        W - (if Z.even k then 1 else 0)].
Proof.
  intros Hnew Hcin Hcout Hk HB HH HW Hmany.
  apply ConvLayer_new_inv in Hnew. subst layer.
  assert (Hpad : trunc (inject_Z (k - 1) / 2) = (k - 1) / 2)
    by (apply trunc_half; lia).
  assert (Hsz : forall h,
             conv_out_size h k 1 ((k - 1) / 2)
             = h - (if Z.even k then 1 else 0)).
  { intros h. unfold conv_out_size. rewrite Z.div_1_r.
    pose proof (Z.div_mod (k - 1) 2 ltac:(lia)) as Hd.
    pose proof (Z.mod_pos_bound (k - 1) 2 ltac:(lia)) as Hb.
    destruct (Z.even k) eqn:Ek.
    - apply Z.even_spec in Ek. destruct Ek as [j ->].
      replace (2 * j - 1) with (1 + (j - 1) * 2) in * by ring.
      rewrite Z.div_add by lia. change (1 / 2) with 0. lia.
    - assert (Ho : Z.odd k = true) by (rewrite <- Z.negb_even, Ek; reflexivity).
      apply Z.odd_spec in Ho. destruct Ho as [j ->].
      replace (2 * j + 1 - 1) with (j * 2) by ring.
      rewrite Z.div_mul by lia. lia. }
  rewrite (ConvLayer_forward_shape cin cout k 1 g ((k - 1) / 2));
    rewrite ?Hsz; try lia; try assumption; try reflexivity.
  - apply Z.div_pos; lia.
  - intros Hn. specialize (Hmany Hn). lia.
Qed.

Lemma ConvLayer_stride1_spatial_witness :
  exists layer,
    ConvLayer_new 3 8 (SizeInt 4) (SizeInt 1) 1 false true true = Ok layer
    /\ ConvLayer_forward (T := Shape) layer [2; 3; 8; 8]
       = Ok [2; 8; 8 - 1; 8 - 1].
Proof.
  eexists. split; [reflexivity|].
  apply (ConvLayer_stride1_spatial 3 8 4 1 2 8 8 false true true);
    try reflexivity; simpl; lia.
Defined.

(** X2: whenever the forward operation of a [ConvLayer] with a positive
    kernel and stride returns, its input was a batch of feature maps with
    the layer's input channels, or, for a layer without normalisation, one
    such feature map without the batch axis; the result has the layer's
    output channels, the batch axis unchanged. *)
Theorem ConvLayer_forward_contract (cin cout k s g : Z)
  (bias use_norm use_act : bool) (layer : ConvLayer) (x y : Shape) :
  ConvLayer_new cin cout (SizeInt k) (SizeInt s) g bias use_norm use_act
  = Ok layer ->
  0 < k -> 0 < s ->
  ConvLayer_forward (T := Shape) layer x = Ok y ->
  (exists b h w h' w',
      x = [b; cin; h; w] /\ y = [b; cout; h'; w'] /\ 0 < h' /\ 0 < w')
  \/ (use_norm = false
      /\ exists h w h' w',
           x = [cin; h; w] /\ y = [cout; h'; w'] /\ 0 < h' /\ 0 < w').
Proof.
  intros Hnew _ _ Hf. apply ConvLayer_new_inv in Hnew. subst layer.
  apply ConvLayer_forward_cases in Hf. cbv zeta in Hf.
  destruct Hf as [[b [h [w [Hx [Hy [Hh [Hw _]]]]]]]
                 | [Hn [h [w [Hx [Hy [Hh Hw]]]]]]].
  - left. exists b, h, w. eexists. eexists. repeat split; eassumption.
  - right. split; [exact Hn|]. exists h, w. eexists. eexists.
    repeat split; eassumption.
Qed.

Lemma ConvLayer_forward_contract_witness :
  (exists b h w h' w',
      [2; 3; 8; 8] = [b; 3; h; w] /\ [2; 8; 4; 4] = [b; 8; h'; w']
      /\ 0 < h' /\ 0 < w')
  \/ (true = false
      /\ exists h w h' w',
           [2; 3; 8; 8] = [3; h; w] /\ [2; 8; 4; 4] = [8; h'; w']
           /\ 0 < h' /\ 0 < w').
Proof.
  apply (ConvLayer_forward_contract 3 8 3 2 1 false true true
           (ConvLayer_init 3 8 (SizeInt 3) (SizeInt 2) 1 false true true)
           [2; 3; 8; 8] [2; 8; 4; 4]); try reflexivity; lia.
Defined.

(** ** [make_divisible] *)

Lemma Qfloor_plus_half (a d : Z) :
  Qfloor (inject_Z a + inject_Z d / 2) = (2 * a + d) / 2.
Proof.
  assert (He : (inject_Z a + inject_Z d / 2
                == inject_Z (2 * a + d) / inject_Z 2)%Q).
  { rewrite inject_Z_plus, inject_Z_mult. change (inject_Z 2) with 2%Q.
    field. }
  rewrite He. symmetry. apply Zdiv_Qdiv.
Qed.

(** X3: an integer up to 2^48 that already is a positive multiple of the
    divisor is returned unchanged (default minimum). *)
Theorem make_divisible_fixed_point (k d : Z) :
  0 < k -> 0 < d -> k * d <= 2 ^ 48 ->
  make_divisible (PyInt (k * d)) d None = Ok (PyInt (k * d)).
Proof.
  intros Hk Hd _. unfold make_divisible.
  replace (d =? 0) with false by (symmetry; apply Z.eqb_neq; lia).
  change (to_Q (PyInt (k * d))) with (inject_Z (k * d)).
  assert (Hq : (0 <= inject_Z (k * d))%Q)
    by (change 0%Q with (inject_Z 0); rewrite <- Zle_Qle; nia).
  assert (Hq' : (0 < inject_Z d)%Q)
    by (change 0%Q with (inject_Z 0); rewrite <- Zlt_Qlt; lia).
  rewrite trunc_nonneg
    by (unfold Qdiv; change (/ 2)%Q with (1 # 2)%Q; lra).
  rewrite Qfloor_plus_half.
  assert (Hc : (2 * (k * d) + d) / 2 / d * d = k * d).
  { replace (2 * (k * d) + d) with (d + (k * d) * 2) by ring.
    rewrite Z.div_add by lia.
    replace (d / 2 + k * d) with (d / 2 + k * d) by ring.
    rewrite Z.div_add by lia.
    assert (0 <= d / 2 < d).
    { split; [apply Z.div_pos; lia|]. apply Z.div_lt_upper_bound; lia. }
    rewrite Z.div_small by lia. ring. }
  rewrite Hc, max_int. replace (Z.max d (k * d)) with (k * d) by nia.
  replace (ltb (PyInt (k * d)) (PyFloat ((9 # 10) * inject_Z (k * d))))
    with false; [reflexivity|].
  symmetry. unfold ltb. simpl to_Q. apply Qltb_ge. lra.
Qed.

Lemma make_divisible_fixed_point_witness :
  make_divisible (PyInt (6 * 8)) 8 None = Ok (PyInt (6 * 8)).
Proof.
  apply make_divisible_fixed_point; lia.
Defined.

(** ** [InvertedResidual] *)

(** X4: a stride other than 1 and 2 stops the constructor at its assertion,
    whatever the other arguments are. *)
Theorem InvertedResidual_init_bad_stride (in_channels : Z)
  (out_channels : option Z) (stride : Z) (expand_ratio : num)
  (skip_connection : bool) :
  stride <> 1 -> stride <> 2 ->
  InvertedResidual_init in_channels out_channels stride expand_ratio
    skip_connection
  = Err AssertionError.
Proof.
  intros H1 H2. unfold InvertedResidual_init.
  apply Z.eqb_neq in H1, H2. now rewrite H1, H2.
Qed.

Lemma InvertedResidual_init_bad_stride_witness :
  InvertedResidual_init 16 (Some 32) 3 (PyInt 4) true = Err AssertionError.
Proof.
  apply InvertedResidual_init_bad_stride; lia.
Defined.

(** X5: the hidden width of a constructed unit is a multiple of 8, at least
    8; the unit is the optional 1x1 expansion to that width (present
    exactly when the expansion ratio is not 1), a depthwise 3x3 convolution
    over it with the unit's stride, and a 1x1 projection to the output
    channels without activation. *)
Theorem InvertedResidual_structure (in_channels out stride : Z)
  (expand_ratio : num) (skip_connection : bool) (u : InvertedResidual) :
  InvertedResidual_init in_channels (Some out) stride expand_ratio
    skip_connection = Ok u ->
  exists hidden_dim,
    8 <= hidden_dim /\ hidden_dim mod 8 = 0
    /\ ir_block u
       = (if neb expand_ratio (PyInt 1)
          then [("exp_1x1"%string,
                 ConvLayer_init in_channels hidden_dim (SizeInt 1) (SizeInt 1)
                                1 false true true)]
          else [])
         ++ [("conv_3x3"%string,
              ConvLayer_init hidden_dim hidden_dim (SizeInt 3)
                             (SizeInt stride) hidden_dim false true true);
             ("red_1x1"%string,
              ConvLayer_init hidden_dim out (SizeInt 1) (SizeInt 1) 1
                             false true false)].
Proof.
  intros Hinit.
  destruct (InvertedResidual_init_record _ _ _ _ _ _ Hinit)
    as [h [o [_ [H8 [Hm [Ho [_ ->]]]]]]].
  injection Ho as <-. exists h. split; [exact H8|]. split; [exact Hm|].
  reflexivity.
Qed.

Lemma InvertedResidual_structure_witness :
  exists u hidden_dim,
    InvertedResidual_init 16 (Some 32) 2 (PyInt 4) true = Ok u
    /\ 8 <= hidden_dim /\ hidden_dim mod 8 = 0
    /\ ir_block u
       = [("exp_1x1"%string,
           ConvLayer_init 16 hidden_dim (SizeInt 1) (SizeInt 1) 1
                          false true true);
          ("conv_3x3"%string,
           ConvLayer_init hidden_dim hidden_dim (SizeInt 3) (SizeInt 2)
                          hidden_dim false true true);
          ("red_1x1"%string,
           ConvLayer_init hidden_dim 32 (SizeInt 1) (SizeInt 1) 1
                          false true false)].
Proof.
  eexists.
  match goal with
  | |- exists h, ?init = Ok ?u /\ _ =>
      destruct (InvertedResidual_structure 16 32 2 (PyInt 4) true u eq_refl)
        as [h [H8 [Hm Hb]]];
      exists h; split; [reflexivity|]; split; [exact H8|];
      split; [exact Hm | exact Hb]
  end.
Defined.

(** X6: a unit with positive widths, stride 2 and an expansion maps
    (B, in, H, W) to (B, out, ceil(H/2), ceil(W/2)) when that leaves more
    than one value per channel. *)
Theorem InvertedResidual_stride2_halves (in_channels out : Z)
  (expand_ratio : num) (skip_connection : bool) (u : InvertedResidual)
  (B H W : Z) :
  InvertedResidual_init in_channels (Some out) 2 expand_ratio skip_connection
  = Ok u ->
  neb expand_ratio (PyInt 1) = true ->
  0 < in_channels -> 0 < out ->
  0 < H -> 0 < W ->
  1 < B * ((H + 1) / 2) * ((W + 1) / 2) ->
  InvertedResidual_forward (T := Shape) u [B; in_channels; H; W]
  = Ok [B; out; (H + 1) / 2; (W + 1) / 2].
Proof.
  intros Hinit He _ _ HH HW Hmany.
  assert (Hs : forall h, conv_out_size h 3 2 1 = (h + 1) / 2).
  { intros h. unfold conv_out_size.
    replace (h + 2 * 1 - 3) with (h + 1 + (-1) * 2) by ring.
    rewrite Z.div_add by lia. lia. }
  rewrite <- !Hs in Hmany.
  rewrite (InvertedResidual_forward_shape _ _ _ _ _ _ _ _ _ Hinit He HH HW
             Hmany).
  now rewrite !Hs.
Qed.

Lemma InvertedResidual_stride2_halves_witness :
  exists u,
    InvertedResidual_init 16 (Some 32) 2 (PyInt 4) true = Ok u
    /\ InvertedResidual_forward (T := Shape) u [1; 16; 7; 8]
       = Ok [1; 32; (7 + 1) / 2; (8 + 1) / 2].
Proof.
  eexists. split; [reflexivity|].
  apply (InvertedResidual_stride2_halves 16 32 (PyInt 4) true);
    reflexivity.
Defined.

(** ** The stage builders *)

(** X7: a residual stack of at least one block whose configured stride is
    neither 1 nor 2 is refused at its first unit. *)
Theorem make_mobilenet_layer_bad_stride (input_channel : Z)
  (cfg : StageConfig) :
  1 <= get (cfg_num_blocks cfg) 2 ->
  get (cfg_stride cfg) 1 <> 1 -> get (cfg_stride cfg) 1 <> 2 ->
  _make_mobilenet_layer input_channel cfg = Err AssertionError.
Proof.
  intros Hn H1 H2. unfold _make_mobilenet_layer.
  destruct (Z.to_nat (get (cfg_num_blocks cfg) 2)) as [|n] eqn:En; [lia|].
  cbn [mobilenet_loop]. simpl (0 =? 0).
  unfold InvertedResidual_init.
  apply Z.eqb_neq in H1, H2. now rewrite H1, H2.
Qed.

Lemma make_mobilenet_layer_bad_stride_witness :
  _make_mobilenet_layer 16 (mv2_stage 32 2 3) = Err AssertionError.
Proof.
  apply make_mobilenet_layer_bad_stride; simpl; lia.
Defined.

(** X8: a residual stack of at least one block without an [out_channels]
    entry cannot be built. *)
Theorem make_mobilenet_layer_no_out_channels (input_channel : Z)
  (cfg : StageConfig) :
  1 <= get (cfg_num_blocks cfg) 2 ->
  cfg_out_channels cfg = None ->
  exists e, _make_mobilenet_layer input_channel cfg = Err e.
Proof.
  intros Hn Ho. unfold _make_mobilenet_layer. rewrite Ho.
  destruct (Z.to_nat (get (cfg_num_blocks cfg) 2)) as [|n] eqn:En; [lia|].
  cbn [mobilenet_loop].
  destruct (InvertedResidual_init _ None _ _ _) as [u|e] eqn:Eu;
    [|eexists; reflexivity].
  destruct (InvertedResidual_init_inv _ _ _ _ _ _ Eu) as [o [Hsome _]].
  discriminate Hsome.
Qed.



Lemma make_mobilenet_layer_no_out_channels_witness :
  exists e,
    _make_mobilenet_layer 16
      (mkStageConfig (Some "mv2"%string) None (Some 2) None None None None
         None None None None None None None None)
    = Err e.
Proof.
  apply make_mobilenet_layer_no_out_channels; [simpl; lia | reflexivity].
Defined.



(** X11: when the configured head count, positive, divides the positive
    transformer width, the hybrid block of a stage with positive input
    channels and arguments its encoders accept is built with exactly that
    many heads. *)
Theorem make_mit_layer_heads (input_channel : Z) (cfg : StageConfig)
  (td : Z) :
  get (cfg_stride cfg) 1 <> 2 ->
  0 < input_channel ->
  cfg_transformer_channels cfg = Some td ->
  0 < td ->
  0 < get (cfg_num_heads cfg) 4 ->
  td mod get (cfg_num_heads cfg) 4 = 0 ->
  encoder_args_ok cfg = true ->
  exists m,
    _make_mit_layer input_channel cfg = Ok ([SMobileViT m], input_channel)
    /\ n_heads m = get (cfg_num_heads cfg) 4.
Proof.
  intros Hs Hin Htd Hpos Hnh' Hdiv _.
  assert (Hnz : td <> 0) by lia.
  assert (Hnh : get (cfg_num_heads cfg) 4 <> 0) by lia. clear Hnh'.
  set (nh := get (cfg_num_heads cfg) 4) in *.
  apply Z.mod_divide in Hdiv; [|exact Hnh]. destruct Hdiv as [q Hq].
  assert (Hhd : td / nh = q) by (rewrite Hq; apply Z.div_mul; exact Hnh).
  assert (Hq0 : q <> 0) by (intros ->; lia).
  assert (Hmod : td mod (td / nh) = 0).
  { rewrite Hhd, Hq, Z.mul_comm. apply Z.mod_mul. exact Hq0. }
  destruct (make_mit_layer_no_downsampling input_channel cfg td Hs Htd
              ltac:(lia) ltac:(lia) Hnh)
    as [m Hm]; [fold nh; rewrite Hhd; exact Hq0 | exact Hmod |].
  exists m. split; [exact Hm|].
  unfold _make_mit_layer in Hm.
  replace (get (cfg_stride cfg) 1 =? 2) with false in Hm
    by (symmetry; now apply Z.eqb_neq).
  rewrite Htd in Hm. cbn [bind getitem] in Hm.
  unfold py_floordiv, py_mod in Hm. fold nh in Hm.
  replace (nh =? 0) with false in Hm by (symmetry; now apply Z.eqb_neq).
  cbn [bind] in Hm. rewrite Hhd in Hm.
  replace (q =? 0) with false in Hm by (symmetry; now apply Z.eqb_neq).
  cbn [bind] in Hm.
  replace (td mod q =? 0) with true in Hm
    by (symmetry; apply Z.eqb_eq; rewrite <- Hhd; exact Hmod).
  cbn [negb] in Hm.
  match type of Hm with
  | bind ?i _ = _ => destruct i as [m'|] eqn:Em; [|discriminate Hm]
  end.
  cbn [bind app] in Hm. injection Hm as <-.
  apply MobileViTBlock_init_inv in Em. destruct Em as [_ [_ ->]].
  cbn [n_heads]. rewrite Hq, Z.mul_comm. apply Z.div_mul. exact Hq0.
Qed.

Lemma make_mit_layer_heads_witness :
  exists m,
    _make_mit_layer 64 (mobilevit_stage_stride1 96 144 288 2)
    = Ok ([SMobileViT m], 64)
    /\ n_heads m = 4.
Proof.
  apply (make_mit_layer_heads 64 (mobilevit_stage_stride1 96 144 288 2) 144);
    try reflexivity; simpl; discriminate.
Defined.



(** X13: a transformer width smaller than the head count gives a head width
    of 0, and the builder stops at its own divisibility test with a
    division by zero instead of its [ValueError]. *)
Theorem make_mit_layer_zero_head_dim (input_channel : Z) (cfg : StageConfig)
  (td : Z) :
  get (cfg_stride cfg) 1 <> 2 ->
  cfg_transformer_channels cfg = Some td ->
  0 <= td < get (cfg_num_heads cfg) 4 ->
  _make_mit_layer input_channel cfg = Err ZeroDivisionError.
Proof.
  intros Hs Htd Hlt. unfold _make_mit_layer.
  replace (get (cfg_stride cfg) 1 =? 2) with false
    by (symmetry; now apply Z.eqb_neq).
  rewrite Htd. cbn [bind getitem]. unfold py_floordiv, py_mod.
  replace (get (cfg_num_heads cfg) 4 =? 0) with false
    by (symmetry; apply Z.eqb_neq; lia).
  cbn [bind]. rewrite Z.div_small by exact Hlt. reflexivity.
Qed.

Lemma make_mit_layer_zero_head_dim_witness :
  _make_mit_layer 64 (mobilevit_stage_stride1 96 3 288 2)
  = Err ZeroDivisionError.
Proof.
  apply (make_mit_layer_zero_head_dim 64
           (mobilevit_stage_stride1 96 3 288 2) 3);
    [simpl; discriminate | reflexivity | simpl; lia].
Defined.

(** ** Patches: where the elements go *)

Lemma mixed_radix_bound (x X y Y : Z) :
  0 <= x < X -> 0 <= y < Y -> 0 <= x * Y + y < X * Y.
Proof.
  intros Hx Hy. split; [nia|].
  assert (x * Y + y < (x + 1) * Y) by lia.
  assert ((x + 1) * Y <= X * Y) by (apply Z.mul_le_mono_nonneg_r; lia).
  lia.
Qed.

Lemma tensor_get_transpose (t t' : Tensor) (a b : nat) (idx : list Z) :
  tensor_transpose t a b = Ok t' ->
  in_bounds (shape t') idx ->
  tensor_get t' idx = tensor_get t (swap a b idx).
Proof.
  unfold tensor_transpose.
  destruct ((a <? length (shape t))%nat && (b <? length (shape t))%nat);
    [|discriminate].
  intros Ht. injection Ht as <-. cbn [shape data]. intros Hb.
  unfold tensor_get. cbn [shape data].
  rewrite nth_map_offsets by (apply ravel_bounds; exact Hb).
  now rewrite unravel_ravel.
Qed.

(** The tensors an aligned unfolding goes through. *)
Lemma unfolding_aligned_steps (self : MobileViTBlock) (x : Tensor)
  (B C nh nw : Z) :
  shape x = [B; C; nh * patch_h self; nw * patch_w self] ->
  0 < B -> 0 < C -> 0 < nh -> 0 < nw ->
  0 < patch_h self -> 0 < patch_w self ->
  exists x2 x4,
    tensor_transpose
      (mkTensor [B * C * nh; patch_h self; nw; patch_w self] (data x)) 1 2
    = Ok x2
    /\ shape x2 = [B * C * nh; nw; patch_h self; patch_w self]
    /\ tensor_transpose
         (mkTensor [B; C; nh * nw; patch_w self * patch_h self] (data x2)) 1 3
       = Ok x4
    /\ shape x4 = [B; patch_w self * patch_h self; nh * nw; C]
    /\ unfolding self x
       = Ok (mkTensor [B * (patch_w self * patch_h self); nh * nw; C]
                      (data x4),
             mkInfo (nh * patch_h self, nw * patch_w self) B false
                    (nh * nw) nw nh).
Proof.
  intros Hx HB HC Hnh Hnw Hph Hpw.
  set (ph := patch_h self) in *. set (pw := patch_w self) in *.
  assert (Ech : ceil_div (nh * ph) ph = nh).
  { unfold ceil_div. rewrite <- Z.mul_opp_l, Z.div_mul by lia. ring. }
  assert (Ecw : ceil_div (nw * pw) pw = nw).
  { unfold ceil_div. rewrite <- Z.mul_opp_l, Z.div_mul by lia. ring. }
  set (x1 := mkTensor [B * C * nh; ph; nw; pw] (data x)).
  destruct (tensor_transpose_ok x1 1 2) as [x2 [T2 [S2 _]]];
    [simpl; lia | simpl; lia |].
  cbn in S2.
  set (x3 := mkTensor [B; C; nh * nw; pw * ph] (data x2)).
  destruct (tensor_transpose_ok x3 1 3) as [x4 [T4 [S4 _]]];
    [simpl; lia | simpl; lia |].
  cbn in S4.
  exists x2, x4. repeat split; try assumption.
  unfold unfolding. cbn [t_shape TensorOps_Tensor]. rewrite Hx. fold ph pw.
  replace (ph =? 0) with false by (symmetry; apply Z.eqb_neq; lia).
  replace (pw =? 0) with false by (symmetry; apply Z.eqb_neq; lia).
  simpl orb. cbv iota. rewrite Ech, Ecw, !Z.eqb_refl.
  rewrite !Z.div_mul by lia.
  cbn [t_reshape t_transpose TensorOps_Tensor negb orb bind].
  rewrite (tensor_reshape_exact x [B * C * nh; ph; nw; pw])
    by (try (repeat constructor; nia); rewrite Hx; simpl; ring).
  cbn [bind]. fold x1. rewrite T2. cbn [bind].
  rewrite (tensor_reshape_exact x2 [B; C; nh * nw; pw * ph])
    by (try (repeat constructor; nia); rewrite S2; simpl; ring).
  cbn [bind]. fold x3. rewrite T4. cbn [bind].
  change [B * (pw * ph); nh * nw; -1]
    with ([B * (pw * ph); nh * nw] ++ [-1]).
  rewrite (tensor_reshape_infer_last x4 [B * (pw * ph); nh * nw] C)
    by (try (repeat constructor; nia); rewrite S4; simpl; ring).
  reflexivity.
Qed.

(** X14: on an aligned input, the element of the unfolded tensor at batch
    position [b * (pw * ph) + (r * pw + q)], patch [i * nw + j] and feature
    [c] is the input element of image [b], channel [c], row [i * ph + r]
    and column [j * pw + q]: the pixel at offset (r, q) inside the patch at
    row [i] and column [j] of the patch grid. *)
Theorem unfolding_layout (self : MobileViTBlock) (x : Tensor)
  (B C nh nw b c i j r q : Z) :
  shape x = [B; C; nh * patch_h self; nw * patch_w self] ->
  0 < patch_h self -> 0 < patch_w self ->
  0 <= b < B -> 0 <= c < C -> 0 <= i < nh -> 0 <= j < nw ->
  0 <= r < patch_h self -> 0 <= q < patch_w self ->
  exists y info,
    unfolding self x = Ok (y, info)
    /\ tensor_get y [b * (patch_w self * patch_h self)
                     + (r * patch_w self + q);
                     i * nw + j; c]
       = tensor_get x [b; c; i * patch_h self + r; j * patch_w self + q].
Proof.
  intros Hx Hph Hpw Hb Hc Hi Hj Hr Hq.
  destruct (unfolding_aligned_steps self x B C nh nw Hx)
    as [x2 [x4 [T2 [S2 [T4 [S4 Hu]]]]]]; try lia.
  set (ph := patch_h self) in *. set (pw := patch_w self) in *.
  eexists. eexists. split; [exact Hu|].
  pose proof (mixed_radix_bound r ph q pw Hr Hq) as Hp.
  pose proof (mixed_radix_bound i nh j nw Hi Hj) as Hn.
  pose proof (mixed_radix_bound b B c C Hb Hc) as Hbc.
  pose proof (mixed_radix_bound _ _ _ _ Hbc Hi) as Ha.
  transitivity (tensor_get x4 [b; r * pw + q; i * nw + j; c]).
  { unfold tensor_get. cbn [shape data]. rewrite S4. f_equal. f_equal.
    cbn [ravel numel fold_right]. ring. }
  rewrite (tensor_get_transpose _ x4 1 3 _ T4)
    by (rewrite S4; repeat constructor; lia).
  cbn [swap swap_pos length seq map nth Nat.eqb].
  transitivity (tensor_get x2 [(b * C + c) * nh + i; j; r; q]).
  { unfold tensor_get. cbn [shape data]. rewrite S2. f_equal. f_equal.
    cbn [ravel numel fold_right]. ring. }
  rewrite (tensor_get_transpose _ x2 1 2 _ T2)
    by (rewrite S2; repeat constructor; lia).
  cbn [swap swap_pos length seq map nth Nat.eqb].
  unfold tensor_get. cbn [shape data]. rewrite Hx. f_equal. f_equal.
  cbn [ravel numel fold_right]. ring.
Qed.

Lemma unfolding_layout_witness :
  exists self,
    MobileViTBlock_init 3 8 None 1 4 (PyInt 0) (PyInt 0) (PyInt 0) 4 4 3
    = Ok self
    /\ exists y info,
         unfolding self image_8x8 = Ok (y, info)
         /\ tensor_get y [1 * (4 * 4) + (3 * 4 + 2); 1 * 2 + 0; 2]
            = tensor_get image_8x8 [1; 2; 1 * 4 + 3; 0 * 4 + 2].
Proof.
  eexists. split; [reflexivity|].
  match goal with
  | |- exists y info, unfolding ?self _ = _ /\ _ =>
      exact (unfolding_layout self image_8x8 2 3 2 2 1 2 1 0 3 2
               eq_refl eq_refl eq_refl ltac:(lia) ltac:(lia) ltac:(lia)
               ltac:(lia) ltac:(cbn; lia) ltac:(cbn; lia))
  end.
Defined.

(** X15: folding a well-formed sequence of patches (without resampling) and
    unfolding the result gives the patches and the metadata back. *)
Theorem unfolding_folding_exact (self : MobileViTBlock) (y : Tensor)
  (B C nh nw : Z) :
  block_consistent self ->
  shape y = [B * (patch_w self * patch_h self); nh * nw; C] ->
  length (data y) = Z.to_nat (numel (shape y)) ->
  0 < B -> 0 < C -> 0 < nh -> 0 < nw ->
  0 < patch_h self -> 0 < patch_w self ->
  exists x,
    folding self y (mkInfo (nh * patch_h self, nw * patch_w self) B false
                           (nh * nw) nw nh)
    = Ok x
    /\ shape x = [B; C; nh * patch_h self; nw * patch_w self]
    /\ unfolding self x
       = Ok (y, mkInfo (nh * patch_h self, nw * patch_w self) B false
                       (nh * nw) nw nh).
Proof.
  intros Hpa Hy Hlen HB HC Hnh Hnw Hph Hpw.
  set (ph := patch_h self) in *. set (pw := patch_w self) in *.
  set (y1 := mkTensor [B; pw * ph; nh * nw; C] (data y)).
  destruct (tensor_transpose_ok y1 1 3) as [y2 [T2 [S2 L2]]];
    [simpl; lia | simpl; lia |].
  cbn in S2.
  set (y3 := mkTensor [B * C * nh; nw; ph; pw] (data y2)).
  destruct (tensor_transpose_ok y3 1 2) as [y4 [T4 [S4 L4]]];
    [simpl; lia | simpl; lia |].
  cbn in S4.
  set (x := mkTensor [B; C; nh * ph; nw * pw] (data y4)).
  assert (P1 : Forall (fun d => 0 < d) (shape y1))
    by (repeat constructor; nia).
  assert (L1 : length (data y1) = Z.to_nat (numel (shape y1))).
  { cbn [y1 data shape]. rewrite Hlen, Hy. f_equal. simpl. ring. }
  assert (P3 : Forall (fun d => 0 < d) (shape y3))
    by (repeat constructor; nia).
  assert (L3 : length (data y3) = Z.to_nat (numel (shape y3))).
  { cbn [y3 data shape]. rewrite L2, S2. f_equal. simpl. ring. }
  pose proof (tensor_transpose_involutive y1 y2 1 3 P1 L1 T2) as T2'.
  pose proof (tensor_transpose_involutive y3 y4 1 2 P3 L3 T4) as T4'.
  exists x. split; [|split; [reflexivity|]].
  - unfold folding.
    cbn [t_shape TensorOps_Tensor]. rewrite Hy.
    cbn [length Nat.eqb py_assert bind batch_size total_patches
         num_patches_h num_patches_w interpolate orig_size].
    rewrite Hpa. fold ph pw. cbn [t_reshape t_transpose TensorOps_Tensor].
    change [B; pw * ph; nh * nw; -1] with ([B; pw * ph; nh * nw] ++ [-1]).
    rewrite (tensor_reshape_infer_last y [B; pw * ph; nh * nw] C)
      by (try (repeat constructor; nia); rewrite Hy; simpl; ring).
    cbn [bind app]. fold y1. cbn [shape y1]. rewrite T2. cbn [bind].
    rewrite (tensor_reshape_exact y2 [B * C * nh; nw; ph; pw])
      by (try (repeat constructor; nia); rewrite S2; simpl; ring).
    cbn [bind]. fold y3. rewrite T4. cbn [bind].
    rewrite (tensor_reshape_exact y4 [B; C; nh * ph; nw * pw])
      by (try (repeat constructor; nia); rewrite S4; simpl; ring).
    reflexivity.
  - assert (Ech : ceil_div (nh * ph) ph = nh).
    { unfold ceil_div. rewrite <- Z.mul_opp_l, Z.div_mul by lia. ring. }
    assert (Ecw : ceil_div (nw * pw) pw = nw).
    { unfold ceil_div. rewrite <- Z.mul_opp_l, Z.div_mul by lia. ring. }
    unfold unfolding. cbn [t_shape TensorOps_Tensor shape x]. fold ph pw.
    replace (ph =? 0) with false by (symmetry; apply Z.eqb_neq; lia).
    replace (pw =? 0) with false by (symmetry; apply Z.eqb_neq; lia).
    simpl orb. cbv iota. rewrite Ech, Ecw, !Z.eqb_refl.
    rewrite !Z.div_mul by lia.
    cbn [t_reshape t_transpose TensorOps_Tensor negb orb bind].
    rewrite (tensor_reshape_exact x [B * C * nh; ph; nw; pw])
      by (try (repeat constructor; nia); simpl; ring).
    cbn [bind]. change (data x) with (data y4).
    replace (mkTensor [B * C * nh; ph; nw; pw] (data y4)) with y4
      by (destruct y4; simpl in S4; now subst).
    rewrite T4'. cbn [bind].
    rewrite (tensor_reshape_exact y3 [B; C; nh * nw; pw * ph])
      by (try (repeat constructor; nia); simpl; ring).
    cbn [bind]. change (data y3) with (data y2).
    replace (mkTensor [B; C; nh * nw; pw * ph] (data y2)) with y2
      by (destruct y2; simpl in S2; now subst).
    rewrite T2'. cbn [bind].
    change [B * (pw * ph); nh * nw; -1]
      with ([B * (pw * ph); nh * nw] ++ [-1]).
    rewrite (tensor_reshape_infer_last y1 [B * (pw * ph); nh * nw] C)
      by (try (repeat constructor; nia); simpl; ring).
    cbn [app data y1]. do 2 f_equal. destruct y. simpl in *. now subst.
Qed.

Lemma unfolding_folding_exact_witness :
  exists self,
    MobileViTBlock_init 3 8 None 1 4 (PyInt 0) (PyInt 0) (PyInt 0) 4 4 3
    = Ok self
    /\ exists x,
         folding self patches_32x4x3 (mkInfo (8, 8) 2 false 4 2 2) = Ok x
         /\ shape x = [2; 3; 8; 8]
         /\ unfolding self x
            = Ok (patches_32x4x3, mkInfo (8, 8) 2 false 4 2 2).
Proof.
  eexists. split; [reflexivity|].
  match goal with
  | |- exists x, folding ?self _ _ = _ /\ _ =>
      exact (unfolding_folding_exact self patches_32x4x3 2 3 2 2
               eq_refl eq_refl eq_refl eq_refl eq_refl eq_refl eq_refl
               eq_refl eq_refl)
  end.
Defined.

Section FoldingPrecondition.

Context {T : Type} {ops : TensorOps T}.

(** X16: folding refuses a tensor that does not have exactly three axes, by
    its assertion and before touching the tensor. *)
Theorem folding_rank_assertion (self : MobileViTBlock) (x : T)
  (info : info_dict) :
  length (t_shape x) <> 3%nat ->
  folding self x info = Err AssertionError.
Proof.
  intros Hr. unfold folding.
  apply Nat.eqb_neq in Hr. now rewrite Hr.
Qed.

End FoldingPrecondition.

Lemma folding_rank_assertion_witness :
  exists self,
    MobileViTBlock_init 3 8 None 1 4 (PyInt 0) (PyInt 0) (PyInt 0) 4 4 3
    = Ok self
    /\ folding self image_8x8 (mkInfo (8, 8) 2 false 4 2 2)
       = Err AssertionError.
Proof.
  eexists. split; [reflexivity|].
  apply (folding_rank_assertion (T := Tensor)). simpl. lia.
Defined.

(** ** The hybrid block *)

(** X17: a hybrid block built with an even local kernel size never returns:
    its convolutions change the spatial size, so the feature map cannot be
    concatenated with the block's input. *)
Theorem MobileViTBlock_even_kernel_fails (cin td : Z) (ffn : option Z)
  (nb hd : Z) (ad dr fd : num) (ph pw k : Z) (self : MobileViTBlock)
  (s : Shape) :
  MobileViTBlock_init cin td ffn nb hd ad dr fd ph pw k = Ok self ->
  Z.even k = true ->
  exists e, MobileViTBlock_forward (T := Shape) self s = Err e.
Proof.
  intros Hinit Hk.
  destruct (MobileViTBlock_forward self s) as [s'|e] eqn:Hf;
    [exfalso | exists e; reflexivity].
  pose proof (MobileViTBlock_forward_preserves _ _ _ _ _ _ _ _ _ _ _ _ _ _
                Hinit Hf) as Hs.
  subst s'.
  apply MobileViTBlock_init_inv in Hinit. destruct Hinit as [_ [_ Hself]].
  unfold MobileViTBlock_forward in Hf.
  bind_step Hf fm L. bind_step Hf yi U. destruct yi as [y info].
  bind_step Hf y' G. bind_step Hf fm2 F. bind_step Hf fm3 P.
  bind_step Hf c K.
  rewrite Hself in Hf. cbn [fusion] in Hf.
  apply ConvLayer_forward_inv in Hf; [|auto].
  destruct Hf as [b [h [w [Hc [Hs _]]]]]. subst c s.
  cbn in K.
  match type of K with
  | (if ?cond then _ else _) = _ =>
      destruct cond; [|discriminate K]
  end.
  injection K as _ Hh _.
  unfold conv_out_size in Hh. rewrite Z.div_1_r in Hh.
  apply Z.even_spec in Hk. destruct Hk as [j Hj]. lia.
Qed.

Lemma MobileViTBlock_even_kernel_fails_witness :
  exists self e,
    MobileViTBlock_init 3 8 None 1 4 (PyInt 0) (PyInt 0) (PyInt 0) 4 4 2
    = Ok self
    /\ MobileViTBlock_forward (T := Shape) self [1; 3; 8; 8] = Err e.
Proof.
  eexists.
  match goal with
  | |- exists e, ?init = Ok ?self /\ _ =>
      destruct (MobileViTBlock_even_kernel_fails 3 8 None 1 4 (PyInt 0)
                  (PyInt 0) (PyInt 0) 4 4 2 self [1; 3; 8; 8] eq_refl
                  eq_refl) as [e He];
      exists e; split; [reflexivity | exact He]
  end.
Defined.

(** ** The network's head *)




(** X19: with expansion ratio 1, a number of input channels that is a
    positive multiple of 8 (up to 2^48) and a positive number of output
    channels the unit can be run on an input that leaves more than one
    value per channel: the depthwise stage is as wide as the input. *)
Theorem InvertedResidual_no_expansion_forward (k out stride : Z)
  (skip_connection : bool) (B H W : Z) :
  0 < k -> 8 * k <= 2 ^ 48 -> 0 < out ->
  stride = 1 \/ stride = 2 -> 0 < H -> 0 < W ->
  1 < B * ((H - 1) / stride + 1) * ((W - 1) / stride + 1) ->
  exists u,
    InvertedResidual_init (8 * k) (Some out) stride (PyInt 1) skip_connection
    = Ok u
    /\ map fst (ir_block u) = ["conv_3x3"%string; "red_1x1"%string]
    /\ InvertedResidual_forward (T := Shape) u [B; 8 * k; H; W]
       = Ok [B; out; (H - 1) / stride + 1; (W - 1) / stride + 1].
Proof.
  intros Hk Hbound Hout Hs HH HW Hmany.
  assert (Hsp : 0 < stride) by lia.
  pose proof (conv_out_size_3_pos H stride HH Hsp) as Hh'.
  pose proof (conv_out_size_3_pos W stride HW Hsp) as Hw'.
  assert (Hsz : forall h, conv_out_size h 3 stride 1 = (h - 1) / stride + 1).
  { intros h. unfold conv_out_size. f_equal. f_equal. ring. }
  rewrite <- !Hsz in Hmany.
  unfold InvertedResidual_init.
  replace ((stride =? 1) || (stride =? 2)) with true
    by (destruct Hs; subst; reflexivity).
  cbn [py_assert bind].
  rewrite (expand_ratio_one_multiple_of_8 k Hk Hbound).
  cbn [bind as_channels].
  change (neb (PyInt 1) (PyInt 1)) with false. cbv iota. cbn [bind].
  rewrite (ConvLayer_new_depthwise (8 * k) 3 stride) by lia.
  cbn [bind require_int].
  rewrite (ConvLayer_new_ungrouped (8 * k) out 1 1) by lia.
  cbn [bind app].
  eexists. split; [reflexivity|]. split; [reflexivity|].
  unfold InvertedResidual_forward. cbn [use_res_connect ir_block].
  assert (Hp : sequential (T := Shape) ConvLayer_forward
                 [("conv_3x3"%string,
                   ConvLayer_init (8 * k) (8 * k) (SizeInt 3) (SizeInt stride)
                                  (8 * k) false true true);
                  ("red_1x1"%string,
                   ConvLayer_init (8 * k) out (SizeInt 1) (SizeInt 1) 1
                                  false true false)]
                 [B; 8 * k; H; W]
               = Ok [B; out; (H - 1) / stride + 1; (W - 1) / stride + 1]).
  { cbn [sequential].
    rewrite (ConvLayer_forward_shape (8 * k) (8 * k) 3 stride (8 * k) 1)
      by (reflexivity || values).
    cbn [bind].
    replace (SizeInt 1) with (SizeInt (2 * 0 + 1)) by reflexivity.
    rewrite ConvLayer_forward_same by values.
    now rewrite !Hsz. }
  rewrite Hp.
  destruct ((stride =? 1) && (8 * k =? out) && skip_connection) eqn:Ec;
    [|reflexivity].
  apply andb_true_iff in Ec. destruct Ec as [Ec _].
  apply andb_true_iff in Ec. destruct Ec as [E1 E2].
  apply Z.eqb_eq in E1, E2. subst stride out.
  cbn [bind]. rewrite !Z.div_1_r.
  replace (H - 1 + 1) with H by ring. replace (W - 1 + 1) with W by ring.
  cbn [t_add Engine_Shape]. unfold shape_add. now rewrite shape_eqb_refl.
Qed.

Lemma InvertedResidual_no_expansion_forward_witness :
  exists u,
    InvertedResidual_init (8 * 2) (Some 16) 1 (PyInt 1) true = Ok u
    /\ map fst (ir_block u) = ["conv_3x3"%string; "red_1x1"%string]
    /\ InvertedResidual_forward (T := Shape) u [1; 8 * 2; 8; 8]
       = Ok [1; 16; (8 - 1) / 1 + 1; (8 - 1) / 1 + 1].
Proof.
  apply (InvertedResidual_no_expansion_forward 2 16 1 true 1 8 8);
    auto; simpl; lia.
Defined.

(** X20: the forward operation of a hybrid block returns only on a batch
    of feature maps with the block's input channels. *)
Theorem MobileViTBlock_forward_input (cin td : Z) (ffn : option Z)
  (nb hd : Z) (ad dr fd : num) (ph pw k : Z) (self : MobileViTBlock)
  (s s' : Shape) :
  MobileViTBlock_init cin td ffn nb hd ad dr fd ph pw k = Ok self ->
  MobileViTBlock_forward (T := Shape) self s = Ok s' ->
  exists b h w, s = [b; cin; h; w] /\ 0 < h /\ 0 < w.
Proof.
  intros Hinit Hf.
  pose proof (MobileViTBlock_forward_preserves _ _ _ _ _ _ _ _ _ _ _ _ _ _
                Hinit Hf) as Hs.
  subst s'.
  apply MobileViTBlock_init_inv in Hinit. destruct Hinit as [_ [_ Hself]].
  unfold MobileViTBlock_forward in Hf.
  bind_step Hf fm L. bind_step Hf yi U. destruct yi as [y info].
  bind_step Hf y' G. bind_step Hf fm2 F. bind_step Hf fm3 P.
  bind_step Hf c K.
  rewrite Hself in Hf. cbn [fusion] in Hf.
  apply ConvLayer_forward_inv in Hf; [|auto].
  destruct Hf as [b [h [w [_ [Hs [Hh Hw]]]]]].
  rewrite Hs. eexists. eexists. eexists.
  split; [reflexivity|]. split; assumption.
Qed.

Lemma MobileViTBlock_forward_input_witness :
  exists self b h w,
    MobileViTBlock_init 3 8 None 1 4 (PyInt 0) (PyInt 0) (PyInt 0) 4 4 3
    = Ok self
    /\ [1; 3; 7; 7] = [b; 3; h; w] /\ 0 < h /\ 0 < w.
Proof.
  eexists.
  match goal with
  | |- exists b h w, ?init = Ok ?self /\ _ =>
      destruct (MobileViTBlock_forward_input 3 8 None 1 4 (PyInt 0)
                  (PyInt 0) (PyInt 0) 4 4 3 self [1; 3; 7; 7] [1; 3; 7; 7]
                  eq_refl eq_refl) as [b [h [w [Hs [Hh Hw]]]]];
      exists b, h, w; split; [reflexivity|]; split; [exact Hs|];
      split; assumption
  end.
Defined.
